(** * rhttp: client construction pipeline ([src/rhttp/rust/src/api/client.rs])

    A shallow embedding of [create_client] and [StaticResolver].  The
    reqwest [ClientBuilder] is modelled by the chronological list of the
    builder methods called on it; the parsers of the external crates
    (certificates, identities, socket addresses) and the final [build] are
    parameters of the section, so every theorem holds for any behaviour of
    them.  A Rust [HashMap] is modelled by the list of its entries in the
    order the map iterates them in a given run. *)

From Stdlib Require Import String List ZArith Lia Bool Permutation.
From Stdlib Require Import Init.Byte Ascii.
Import ListNotations.
Open Scope string_scope.
Open Scope Z_scope.

(** ** Result type and its error monad ([Result<T, E>] and [?]) *)

Inductive result (A E : Type) : Type :=
| Ok (a : A)
| Err (e : E).
Arguments Ok {A E} a.
Arguments Err {A E} e.

Definition bind {A B E} (m : result A E) (k : A -> result B E) : result B E :=
  match m with
  | Ok a => k a
  | Err e => Err e
  end.

Definition map_err {A E F} (f : E -> F) (m : result A E) : result A F :=
  match m with
  | Ok a => Ok a
  | Err e => Err (f e)
  end.

Notation "'let*' x := m 'in' k" := (bind m (fun x => k))
  (at level 200, x name, m at level 100, k at level 200).

(** [crate::api::error::RhttpError], the only variant used here. *)
Inductive RhttpError : Type :=
| RhttpUnknownError (msg : string).

(** ** Durations *)

(** [chrono::Duration] (TimeDelta): seconds and a nanosecond part that is
    always in [0, 10^9). *)
Record ChronoDuration : Type := mkChronoDuration {
  secs : Z;
  nanos : Z
}.

(** [std::time::Duration]. *)
Record StdDuration : Type := mkStdDuration {
  std_secs : Z;
  std_nanos : Z
}.

(** chrono's [OutOfRangeError] and its [Display]. *)
Definition out_of_range_error_to_string : string :=
  "Source duration value is out of range for the target type".

(** [chrono::Duration::to_std]: negative durations are refused. *)
Definition to_std (d : ChronoDuration) : result StdDuration string :=
  if secs d <? 0 then Err out_of_range_error_to_string
  else Ok (mkStdDuration (secs d) (nanos d)).

(** [std::time::Duration::as_millis]. *)
Definition as_millis (d : StdDuration) : Z :=
  std_secs d * 1000 + std_nanos d / 1000000.

(** ** Settings model *)

(** [crate::api::http::HttpVersionPref] (variants as matched in [create_client]). *)
Inductive HttpVersionPref : Type :=
| Http10 | Http11 | Http2 | Http3 | All.

Inductive ProxySettings : Type :=
| NoProxy.

(** [LimitedRedirects] carries an [i32]. *)
Inductive RedirectSettings : Type :=
| NoRedirect
| LimitedRedirects (max_redirects : Z).

Record TimeoutSettings : Type := mkTimeoutSettings {
  timeout : option ChronoDuration;
  connect_timeout : option ChronoDuration;
  keep_alive_timeout : option ChronoDuration;
  keep_alive_ping : option ChronoDuration
}.

Inductive TlsVersion : Type :=
| Tls1_2 | Tls1_3.

Record ClientCertificate : Type := mkClientCertificate {
  certificate : list byte;
  private_key : list byte
}.

Record TlsSettings : Type := mkTlsSettings {
  trust_root_certificates : bool;
  trusted_root_certificates : list (list byte);
  verify_certificates : bool;
  client_certificate : option ClientCertificate;
  min_tls_version : option TlsVersion;
  max_tls_version : option TlsVersion
}.

(** [overrides : HashMap<String, Vec<String>>]: its entries in the order the
    map yields them when iterated. *)
Record DnsSettings : Type := mkDnsSettings {
  overrides : list (string * list string);
  fallback : option string
}.

Record ClientSettings : Type := mkClientSettings {
  http_version_pref : HttpVersionPref;
  timeout_settings : option TimeoutSettings;
  throw_on_status_code : bool;
  proxy_settings : option ProxySettings;
  redirect_settings : option RedirectSettings;
  tls_settings : option TlsSettings;
  dns_settings : option DnsSettings
}.

(** [impl Default for ClientSettings]. *)
Definition ClientSettings_default : ClientSettings := {|
  http_version_pref := All;
  timeout_settings := None;
  throw_on_status_code := true;
  proxy_settings := None;
  redirect_settings := None;
  tls_settings := None;
  dns_settings := None
|}.

(** [tokio_util::sync::CancellationToken]: a fresh token is live. *)
Record CancellationToken : Type := mkCancellationToken {
  is_cancelled : bool
}.

Definition CancellationToken_new : CancellationToken := mkCancellationToken false.

(** [usize] on a 64-bit target, and the [as usize] cast from [i32]. *)
Definition usize_modulus : Z := 2 ^ 64.

Definition i32_as_usize (n : Z) : Z := n mod usize_modulus.

(** [reqwest::redirect::Policy]. *)
Inductive Policy : Type :=
| Policy_none
| Policy_limited (max : Z).

(** [reqwest::tls::Version]. *)
Inductive ReqwestTlsVersion : Type :=
| TLS_1_2 | TLS_1_3.

Definition dummy_port : string := "1111".

(** [AddrParseError] as produced by [SocketAddr::from_str]: its [Display]
    and its [Debug]. *)
Definition addr_parse_error_to_string : string := "invalid socket address syntax".
Definition addr_parse_error_debug : string := "AddrParseError(Socket)".

(** The external collaborators, as one capability interface: reqwest's
    certificate, identity, client and error types, std's [SocketAddr], and
    their fallible constructors. *)
Record Engine : Type := mkEngine {
  Certificate : Type;
  Identity : Type;
  SocketAddr : Type;
  Client : Type;
  ReqwestError : Type;
  (** [reqwest::Certificate::from_pem] *)
  certificate_from_pem : list byte -> result Certificate ReqwestError;
  (** [reqwest::Identity::from_pem] *)
  identity_from_pem : list byte -> result Identity ReqwestError;
  (** [SocketAddr::from_str]; its error is always [AddrParseError(Socket)]. *)
  socket_addr_from_str : string -> option SocketAddr;
  (** [format!("{e:?}")] of a [reqwest::Error] *)
  reqwest_error_debug : ReqwestError -> string
}.

Section Pipeline.

Variable E : Engine.
Local Abbreviation Certificate := (Certificate E).
Local Abbreviation Identity := (Identity E).
Local Abbreviation SocketAddr := (SocketAddr E).
Local Abbreviation Client := (Client E).
Local Abbreviation certificate_from_pem := (certificate_from_pem E).
Local Abbreviation identity_from_pem := (identity_from_pem E).
Local Abbreviation socket_addr_from_str := (socket_addr_from_str E).
Local Abbreviation reqwest_error_debug := (reqwest_error_debug E).

Record StaticResolver : Type := mkStaticResolver {
  address : SocketAddr
}.

(** The methods of [reqwest::ClientBuilder] called by [create_client]. *)
Inductive BuilderCall : Type :=
| no_proxy
| redirect (p : Policy)
| timeout_call (d : StdDuration)
| connect_timeout_call (d : StdDuration)
| tcp_keepalive (d : StdDuration)
| http2_keep_alive_while_idle (b : bool)
| http2_keep_alive_timeout (d : StdDuration)
| http2_keep_alive_interval (d : StdDuration)
| tls_built_in_root_certs (b : bool)
| add_root_certificate (c : Certificate)
| danger_accept_invalid_certs (b : bool)
| identity (i : Identity)
| min_tls_version_call (v : ReqwestTlsVersion)
| max_tls_version_call (v : ReqwestTlsVersion)
| http1_only
| http2_prior_knowledge
| http3_prior_knowledge
| dns_resolver (r : StaticResolver)
| resolve_to_addrs (hostname : string) (addrs : list SocketAddr).

(** A [ClientBuilder]: the calls made on it, oldest first. *)
Definition ClientBuilder : Type := list BuilderCall.

Definition call (client : ClientBuilder) (c : BuilderCall) : ClientBuilder :=
  (client ++ [c])%list.

(** [reqwest::ClientBuilder::build]. *)
Variable build : ClientBuilder -> result Client (ReqwestError E).

Record RequestClient : Type := mkRequestClient {
  client : Client;
  rc_http_version_pref : HttpVersionPref;
  rc_throw_on_status_code : bool;
  cancel_token : CancellationToken
}.

(** [impl Resolve for StaticResolver]: [Resolving] is a boxed future; the
    one used here is [future::ready]. *)
Inductive Resolving : Type :=
| Ready (r : result (list SocketAddr) string)
| Pending.

Definition resolve (self : StaticResolver) (_ : string) : Resolving :=
  Ready (Ok [address self]).

(** *** [create_client], group by group *)

Definition apply_proxy (client : ClientBuilder) (ps : option ProxySettings) : ClientBuilder :=
  match ps with
  | Some NoProxy => call client no_proxy
  | None => client
  end.

Definition apply_redirect (client : ClientBuilder) (rs : option RedirectSettings) : ClientBuilder :=
  match rs with
  | Some NoRedirect => call client (redirect Policy_none)
  | Some (LimitedRedirects max_redirects) =>
      call client (redirect (Policy_limited (i32_as_usize max_redirects)))
  | None => client
  end.

(** [d.to_std().map_err(|e| RhttpUnknownError(e.to_string()))?] *)
Definition to_std_err (d : ChronoDuration) : result StdDuration RhttpError :=
  map_err RhttpUnknownError (to_std d).

Definition apply_keep_alive (client : ClientBuilder) (ka : option ChronoDuration)
  : result ClientBuilder RhttpError :=
  match ka with
  | Some keep_alive_timeout =>
      let* timeout := to_std_err keep_alive_timeout in
      if as_millis timeout >? 0 then
        let client := call client (tcp_keepalive timeout) in
        let client := call client (http2_keep_alive_while_idle true) in
        Ok (call client (http2_keep_alive_timeout timeout))
      else Ok client
  | None => Ok client
  end.

Definition apply_timeouts (client : ClientBuilder) (ts : option TimeoutSettings)
  : result ClientBuilder RhttpError :=
  match ts with
  | None => Ok client
  | Some t =>
      let* client :=
        match timeout t with
        | Some d => let* d := to_std_err d in Ok (call client (timeout_call d))
        | None => Ok client
        end in
      let* client :=
        match connect_timeout t with
        | Some d => let* d := to_std_err d in Ok (call client (connect_timeout_call d))
        | None => Ok client
        end in
      let* client := apply_keep_alive client (keep_alive_timeout t) in
      match keep_alive_ping t with
      | Some d => let* d := to_std_err d in Ok (call client (http2_keep_alive_interval d))
      | None => Ok client
      end
  end.

(** The [for cert in trusted_root_certificates] loop. *)
Fixpoint add_root_certificates (client : ClientBuilder) (certs : list (list byte))
  : result ClientBuilder RhttpError :=
  match certs with
  | [] => Ok client
  | cert :: rest =>
      let* c := map_err (fun e => RhttpUnknownError
                  ("Error adding trusted certificate: " ++ reqwest_error_debug e))
                  (certificate_from_pem cert) in
      add_root_certificates (call client (add_root_certificate c)) rest
  end.

(** [[cert.as_slice(), "\n".as_bytes(), key.as_slice()].concat()] *)
Definition identity_blob (cc : ClientCertificate) : list byte :=
  (certificate cc ++ [x0a] ++ private_key cc)%list.

Definition map_tls_version (v : TlsVersion) : ReqwestTlsVersion :=
  match v with
  | Tls1_2 => TLS_1_2
  | Tls1_3 => TLS_1_3
  end.

Definition apply_tls (client : ClientBuilder) (ts : option TlsSettings)
  : result ClientBuilder RhttpError :=
  match ts with
  | None => Ok client
  | Some t =>
      let client := if negb (trust_root_certificates t)
                    then call client (tls_built_in_root_certs false) else client in
      let* client := add_root_certificates client (trusted_root_certificates t) in
      let client := if negb (verify_certificates t)
                    then call client (danger_accept_invalid_certs true) else client in
      let* client :=
        match client_certificate t with
        | Some cc =>
            let* id := map_err (fun e => RhttpUnknownError (reqwest_error_debug e))
                         (identity_from_pem (identity_blob cc)) in
            Ok (call client (identity id))
        | None => Ok client
        end in
      let client := match min_tls_version t with
                    | Some v => call client (min_tls_version_call (map_tls_version v))
                    | None => client
                    end in
      Ok (match max_tls_version t with
          | Some v => call client (max_tls_version_call (map_tls_version v))
          | None => client
          end)
  end.

Definition apply_http_version (client : ClientBuilder) (p : HttpVersionPref) : ClientBuilder :=
  match p with
  | Http10 | Http11 => call client http1_only
  | Http2 => call client http2_prior_knowledge
  | Http3 => call client http3_prior_knowledge
  | All => client
  end.

(** The [.map(|ip| ...).filter_map(Result::ok).collect()] of one override:
    the closure overwrites [error] at every literal that fails to parse. *)
Fixpoint collect_ips (error : option string) (ips : list string)
  : option string * list SocketAddr :=
  match ips with
  | [] => (error, [])
  | ip :: rest =>
      match socket_addr_from_str (ip ++ ":" ++ dummy_port) with
      | Some a => let (err, addrs) := collect_ips error rest in (err, a :: addrs)
      | None =>
          collect_ips (Some ("Invalid IP address: " ++ ip ++ ". "
                             ++ addr_parse_error_to_string)) rest
      end
  end.

(** The [for dns_override in dns_settings.overrides] loop. *)
Fixpoint apply_overrides (client : ClientBuilder) (ovs : list (string * list string))
  : result ClientBuilder RhttpError :=
  match ovs with
  | [] => Ok client
  | (hostname, ip) :: rest =>
      let (error, ip) := collect_ips None ip in
      match error with
      | Some error => Err (RhttpUnknownError error)
      | None => apply_overrides (call client (resolve_to_addrs hostname ip)) rest
      end
  end.

Definition apply_dns (client : ClientBuilder) (ds : option DnsSettings)
  : result ClientBuilder RhttpError :=
  match ds with
  | None => Ok client
  | Some d =>
      let* client :=
        match fallback d with
        | Some fb =>
            match socket_addr_from_str (fb ++ ":" ++ dummy_port) with
            | Some a => Ok (call client (dns_resolver (mkStaticResolver a)))
            | None => Err (RhttpUnknownError addr_parse_error_debug)
            end
        | None => Ok client
        end in
      apply_overrides client (overrides d)
  end.

(** The block of [create_client] before [.build()]. *)
Definition configure (settings : ClientSettings) : result ClientBuilder RhttpError :=
  let client : ClientBuilder := [] in
  let client := apply_proxy client (proxy_settings settings) in
  let client := apply_redirect client (redirect_settings settings) in
  let* client := apply_timeouts client (timeout_settings settings) in
  let* client := apply_tls client (tls_settings settings) in
  let client := apply_http_version client (http_version_pref settings) in
  apply_dns client (dns_settings settings).

Definition create_client (settings : ClientSettings) : result RequestClient RhttpError :=
  let* client := configure settings in
  let* client := map_err (fun e => RhttpUnknownError (reqwest_error_debug e))
                   (build client) in
  Ok {| client := client;
        rc_http_version_pref := http_version_pref settings;
        rc_throw_on_status_code := throw_on_status_code settings;
        cancel_token := CancellationToken_new |}.

(** [RequestClient::new]. *)
Definition RequestClient_new (settings : ClientSettings) : result RequestClient RhttpError :=
  create_client settings.

(** [RequestClient::new_default]: [create_client(ClientSettings::default()).unwrap()];
    [None] stands for the panic of [unwrap] on an [Err]. *)
Definition RequestClient_new_default : option RequestClient :=
  match create_client ClientSettings_default with
  | Ok r => Some r
  | Err _ => None
  end.

End Pipeline.

Arguments no_proxy {E}.
Arguments redirect {E} p.
Arguments timeout_call {E} d.
Arguments connect_timeout_call {E} d.
Arguments tcp_keepalive {E} d.
Arguments http2_keep_alive_while_idle {E} b.
Arguments http2_keep_alive_timeout {E} d.
Arguments http2_keep_alive_interval {E} d.
Arguments tls_built_in_root_certs {E} b.
Arguments add_root_certificate {E} c.
Arguments danger_accept_invalid_certs {E} b.
Arguments identity {E} i.
Arguments min_tls_version_call {E} v.
Arguments max_tls_version_call {E} v.
Arguments http1_only {E}.
Arguments http2_prior_knowledge {E}.
Arguments http3_prior_knowledge {E}.
Arguments dns_resolver {E} r.
Arguments resolve_to_addrs {E} hostname addrs.
Arguments mkStaticResolver {E} address.
Arguments address {E} s.
Arguments Ready {E} r.
Arguments call {E} client c.
Arguments client {E} r.
Arguments rc_http_version_pref {E} r.
Arguments rc_throw_on_status_code {E} r.
Arguments cancel_token {E} r.

(** ** The groups of builder calls, in the order [create_client] applies them *)

Inductive Group : Type :=
| GProxy | GRedirect | GTimeout | GTls | GVersion | GDns.

Definition group_of {E : Engine} (c : BuilderCall E) : Group :=
  match c with
  | no_proxy => GProxy
  | redirect _ => GRedirect
  | timeout_call _ | connect_timeout_call _ | tcp_keepalive _
  | http2_keep_alive_while_idle _ | http2_keep_alive_timeout _
  | http2_keep_alive_interval _ => GTimeout
  | tls_built_in_root_certs _ | add_root_certificate _
  | danger_accept_invalid_certs _ | identity _
  | min_tls_version_call _ | max_tls_version_call _ => GTls
  | http1_only | http2_prior_knowledge | http3_prior_knowledge => GVersion
  | dns_resolver _ | resolve_to_addrs _ _ => GDns
  end.

(** The three effects of a keep-alive timeout. *)
Definition is_keep_alive_effect {E : Engine} (c : BuilderCall E) : bool :=
  match c with
  | tcp_keepalive _ | http2_keep_alive_while_idle _ | http2_keep_alive_timeout _ => true
  | _ => false
  end.

(** The durations of a timeout group, as supplied. *)
Definition timeout_durations (ts : option TimeoutSettings) : list ChronoDuration :=
  match ts with
  | None => []
  | Some t =>
      let opt o := match o with Some d => [d] | None => [] end in
      opt (timeout t) ++ opt (connect_timeout t)
      ++ opt (keep_alive_timeout t) ++ opt (keep_alive_ping t)
  end%list.

(** The message of an invalid override literal. *)
Definition invalid_ip_message (ip : string) : string :=
  "Invalid IP address: " ++ ip ++ ". " ++ addr_parse_error_to_string.



(** [s] with its DNS group replaced by [d]. *)
Definition with_dns (s : ClientSettings) (d : option DnsSettings) : ClientSettings :=
  mkClientSettings (http_version_pref s) (timeout_settings s) (throw_on_status_code s)
    (proxy_settings s) (redirect_settings s) (tls_settings s) d.

(** ** A concrete engine, used to evaluate the pipeline on concrete inputs *)

Module Example.

(** Splits a string at every occurrence of [c] (like [str::split]). *)
Fixpoint split_at_char (c : Ascii.ascii) (s : string) : list string :=
  match s with
  | EmptyString => [EmptyString]
  | String x rest =>
      if Ascii.eqb x c then EmptyString :: split_at_char c rest
      else match split_at_char c rest with
           | [] => [String x EmptyString]
           | w :: ws => String x w :: ws
           end
  end.

Fixpoint dec_value (s : string) (acc : Z) : option Z :=
  match s with
  | EmptyString => Some acc
  | String x r =>
      let n := Z.of_nat (Ascii.nat_of_ascii x) - 48 in
      if (0 <=? n) && (n <=? 9) then dec_value r (acc * 10 + n) else None
  end.

(** A non-empty decimal without leading zero, at most [max]. *)
Definition parse_decimal (max : Z) (s : string) : option Z :=
  match s with
  | EmptyString => None
  | String "0"%char (String _ _) => None
  | _ => match dec_value s 0 with
         | Some v => if v <=? max then Some v else None
         | None => None
         end
  end.

(** IPv4 socket addresses ["a.b.c.d:port"]. *)
Definition parse_socket_addr (s : string) : option (list Z * Z) :=
  match split_at_char ":"%char s with
  | [host; port] =>
      match split_at_char "."%char host, parse_decimal 65535 port with
      | [a; b; c; d], Some p =>
          match parse_decimal 255 a, parse_decimal 255 b,
                parse_decimal 255 c, parse_decimal 255 d with
          | Some a, Some b, Some c, Some d => Some ([a; b; c; d], p)
          | _, _, _, _ => None
          end
      | _, _ => None
      end
  | _ => None
  end.

(** ["-----BEGIN"] *)
Definition pem_prefix : list byte := [x2d; x2d; x2d; x2d; x2d; x42; x45; x47; x49; x4e].

Fixpoint starts_with (p l : list byte) : bool :=
  match p, l with
  | [], _ => true
  | x :: p', y :: l' => Byte.eqb x y && starts_with p' l'
  | _ :: _, [] => false
  end.

Definition pem_error : string := "reqwest::Error { kind: Builder }".

Definition from_pem (l : list byte) : result (list byte) string :=
  if starts_with pem_prefix l then Ok l else Err pem_error.

Definition engine : Engine := {|
  Certificate := list byte;
  Identity := list byte;
  SocketAddr := list Z * Z;
  Client := unit;
  ReqwestError := string;
  certificate_from_pem := from_pem;
  identity_from_pem := from_pem;
  socket_addr_from_str := parse_socket_addr;
  reqwest_error_debug := fun e => e
|}.

(** A [build] that always succeeds. *)
Definition build (b : ClientBuilder engine) : result (Client engine) string := Ok tt.

End Example.

(** Concrete settings used by the counterexamples and witnesses. *)
Module Inputs.

(** HTTP/2 forced, and one DNS override. *)
Definition c2_settings : ClientSettings :=
  mkClientSettings Http2 None true None None None
    (Some (mkDnsSettings [("a.test", ["1.2.3.4"])] None)).

(** A keep-alive timeout of one nanosecond. *)
Definition c3_settings : ClientSettings :=
  mkClientSettings All (Some (mkTimeoutSettings None None (Some (mkChronoDuration 0 1)) None))
    true None None None None.

(** A keep-alive timeout of two seconds. *)
Definition c3_settings_2s : ClientSettings :=
  mkClientSettings All (Some (mkTimeoutSettings None None (Some (mkChronoDuration 2 0)) None))
    true None None None None.

(** [LimitedRedirects(-1)]. *)
Definition c4_settings : ClientSettings :=
  mkClientSettings All None true None (Some (LimitedRedirects (-1))) None None.

(** An invalid fallback, and an override with an invalid literal. *)
Definition c1_settings : ClientSettings :=
  mkClientSettings All None true None None None
    (Some (mkDnsSettings [("example.test", ["1.2.3.4"; "not-an-ip"])] (Some "not-an-ip"))).

(** The override of the spec's example, without fallback. *)
Definition c1_settings_valid_prefix : ClientSettings :=
  mkClientSettings All None true None None None
    (Some (mkDnsSettings [("example.test", ["1.2.3.4"; "not-an-ip"])] None)).

(** A valid fallback. *)
Definition c5_settings : ClientSettings :=
  mkClientSettings All None true None None None
    (Some (mkDnsSettings [] (Some "9.9.9.9"))).






(** A client certificate and key that both start like PEM. *)
Definition c7_settings : ClientSettings :=
  mkClientSettings All None true None None
    (Some (mkTlsSettings true [] true
             (Some (mkClientCertificate Example.pem_prefix Example.pem_prefix)) None None))
    None.

(** A negative timeout, and a trusted root certificate that is not PEM. *)
Definition c8_settings : ClientSettings :=
  mkClientSettings All (Some (mkTimeoutSettings (Some (mkChronoDuration (-1) 0)) None None None))
    true None None (Some (mkTlsSettings true [[x00]] true None None None)) None.

(** A trusted root certificate that is not PEM. *)
Definition c8_settings_valid_prefix : ClientSettings :=
  mkClientSettings All None true None None
    (Some (mkTlsSettings true [[x00]] true None None None)) None.

(** Every timeout field; a keep-alive timeout under one millisecond. *)
Definition x_timeouts : TimeoutSettings :=
  mkTimeoutSettings (Some (mkChronoDuration 30 0)) (Some (mkChronoDuration 0 0))
    (Some (mkChronoDuration 0 500000)) (Some (mkChronoDuration 15 0)).

Definition x_timeout_settings : ClientSettings :=
  mkClientSettings All (Some x_timeouts) true None None None None.

(** Every TLS field, with certificates and a key that start like PEM. *)
Definition x_tls : TlsSettings :=
  mkTlsSettings false [Example.pem_prefix; Example.pem_prefix] false
    (Some (mkClientCertificate Example.pem_prefix Example.pem_prefix)) (Some Tls1_2) (Some Tls1_3).

Definition x_tls_settings : ClientSettings :=
  mkClientSettings Http11 None false (Some NoProxy) (Some NoRedirect) (Some x_tls) None.

(** A fallback and two overrides, one of them with no address. *)
Definition x_dns : DnsSettings :=
  mkDnsSettings [("a.test", ["1.2.3.4"; "5.6.7.8"]); ("b.test", [])] (Some "9.9.9.9").

Definition x_dns_settings : ClientSettings :=
  mkClientSettings Http3 None true None None None (Some x_dns).

(** A client identity that is not PEM. *)
Definition x_bad_identity_tls : TlsSettings :=
  mkTlsSettings true [Example.pem_prefix] true (Some (mkClientCertificate [x00] [x00])) None None.

Definition x_bad_identity_settings : ClientSettings :=
  mkClientSettings All (Some x_timeouts) true None None (Some x_bad_identity_tls) None.

(** Two invalid literals in one override, a third in a later one. *)
Definition x_bad_overrides : DnsSettings :=
  mkDnsSettings [("ok.test", ["1.2.3.4"]);
                 ("bad.test", ["1.2.3.4"; "bad1"; "5.6.7.8"; "bad2"; "9.9.9.9"]);
                 ("later.test", ["bad3"])] None.

Definition x_bad_override_settings : ClientSettings :=
  mkClientSettings All None true None None None (Some x_bad_overrides).

End Inputs.

(** The three keep-alive calls a keep-alive timeout [sd] leads to. *)
Definition keep_alive_calls {E : Engine} (sd : StdDuration) : list (BuilderCall E) :=
  if as_millis sd >? 0
  then [tcp_keepalive sd; http2_keep_alive_while_idle true; http2_keep_alive_timeout sd]
  else [].

(** C2 as the spec states it: in a configured builder, every call of the
    other groups comes before every HTTP-version call. *)
Definition version_forcing_last (E : Engine) : Prop :=
  forall s b, configure E s = Ok b ->
  forall i j ci cj, nth_error b i = Some ci -> nth_error b j = Some cj ->
  group_of ci = GVersion -> group_of cj <> GVersion -> (j < i)%nat.

(** C3 as the spec states it: zero means none of the three keep-alive
    effects, strictly positive means all three. *)
Definition keep_alive_positive_claim (E : Engine) : Prop :=
  forall s t d b,
  timeout_settings s = Some t -> keep_alive_timeout t = Some d -> configure E s = Ok b ->
  (secs d = 0 /\ nanos d = 0 -> Forall (fun c => is_keep_alive_effect c = false) b) /\
  (0 < secs d * 1000000000 + nanos d ->
   exists sd, to_std d = Ok sd /\ In (tcp_keepalive sd) b /\
     In (http2_keep_alive_while_idle true) b /\ In (http2_keep_alive_timeout sd) b).

(** C4 as the spec states it: [LimitedRedirects(n)] follows at most [n]. *)
Definition redirect_claim (E : Engine) : Prop :=
  forall s b, configure E s = Ok b ->
  (redirect_settings s = Some NoRedirect -> In (redirect Policy_none) b) /\
  (forall n, redirect_settings s = Some (LimitedRedirects n) ->
   In (redirect (Policy_limited n)) b).

(** Whether an override or fallback literal is refused by [SocketAddr::from_str]
    once the placeholder port is appended. *)
Definition fails (E : Engine) (ip : string) : bool :=
  match socket_addr_from_str E (ip ++ ":" ++ dummy_port) with
  | None => true
  | Some _ => false
  end.

(** The last literal of a list that fails to parse: the one whose message
    is left in [error] by the closure of the override loop. *)
Fixpoint last_failing (E : Engine) (ips : list string) : option string :=
  match ips with
  | [] => None
  | ip :: rest =>
      match last_failing E rest with
      | Some l => Some l
      | None => if fails E ip then Some ip else None
      end
  end.

(** The [resolve_to_addrs] call of one override entry. *)
Definition override_call (E : Engine) (e : string * list string) : BuilderCall E :=
  resolve_to_addrs (fst e) (snd (collect_ips E None (snd e))).

(** C1 as the spec states it. *)
Definition override_error_claim (E : Engine)
    (build : ClientBuilder E -> result (Client E) (ReqwestError E)) : Prop :=
  forall s d host ips lit,
  dns_settings s = Some d -> In (host, ips) (overrides d) -> In lit ips ->
  fails E lit = true ->
  exists host' ips' lit',
    In (host', ips') (overrides d) /\ In lit' ips' /\ fails E lit' = true /\
    create_client E build s = Err (RhttpUnknownError (invalid_ip_message lit')).


(** The message of a trusted root certificate that fails to parse. *)
Definition trusted_cert_message (E : Engine) (e : ReqwestError E) : string :=
  "Error adding trusted certificate: " ++ reqwest_error_debug E e.

(** C8 as the spec states it. *)
Definition trusted_cert_claim (E : Engine)
    (build : ClientBuilder E -> result (Client E) (ReqwestError E)) : Prop :=
  forall s t cert e,
  tls_settings s = Some t -> In cert (trusted_root_certificates t) ->
  certificate_from_pem E cert = Err e ->
  exists e', create_client E build s = Err (RhttpUnknownError (trusted_cert_message E e')).

(** *** Views of a configured builder *)

Definition Group_eq_dec (g1 g2 : Group) : {g1 = g2} + {g1 <> g2}.
Proof. decide equality. Defined.

(** The calls of group [G] in a builder, oldest first. *)
Definition calls_of {E : Engine} (G : Group) (b : ClientBuilder E) : ClientBuilder E :=
  filter (fun c => if Group_eq_dec (group_of c) G then true else false) b.

(** The certificates passed to [add_root_certificate], oldest first. *)
Definition root_certificates_of {E : Engine} (b : ClientBuilder E) : list (Certificate E) :=
  flat_map (fun c => match c with add_root_certificate x => [x] | _ => [] end) b.

(** The calls made before the timeout group: proxy, then redirect. *)
Definition head_calls (E : Engine) (s : ClientSettings) : ClientBuilder E :=
  apply_redirect E (apply_proxy E [] (proxy_settings s)) (redirect_settings s).

(** [ip] with the placeholder port parses to the socket address [a]. *)
Definition parses (E : Engine) (ip : string) (a : SocketAddr E) : Prop :=
  socket_addr_from_str E (ip ++ ":" ++ dummy_port) = Some a.

(** The [std::time::Duration] a non-negative chrono duration converts to. *)
Definition std_of (d : ChronoDuration) : StdDuration := mkStdDuration (secs d) (nanos d).

Definition opt_call {E : Engine} (f : StdDuration -> BuilderCall E) (o : option ChronoDuration)
  : list (BuilderCall E) :=
  match o with
  | Some d => [f (std_of d)]
  | None => []
  end.

(** The calls of a timeout group whose durations all convert. *)
Definition expected_timeout_calls {E : Engine} (t : TimeoutSettings) : list (BuilderCall E) :=
  (opt_call timeout_call (timeout t) ++ opt_call connect_timeout_call (connect_timeout t) ++
   match keep_alive_timeout t with
   | Some d => keep_alive_calls (std_of d)
   | None => []
   end ++
   opt_call http2_keep_alive_interval (keep_alive_ping t))%list.

(** The calls of a TLS group, given the parsed root certificates [cs] and
    the identity call(s) [idl]. *)
Definition tls_calls {E : Engine} (t : TlsSettings) (cs : list (Certificate E))
    (idl : list (BuilderCall E)) : list (BuilderCall E) :=
  ((if negb (trust_root_certificates t) then [tls_built_in_root_certs false] else []) ++
   map add_root_certificate cs ++
   (if negb (verify_certificates t) then [danger_accept_invalid_certs true] else []) ++
   idl ++
   match min_tls_version t with
   | Some v => [min_tls_version_call (map_tls_version v)]
   | None => []
   end ++
   match max_tls_version t with
   | Some v => [max_tls_version_call (map_tls_version v)]
   | None => []
   end)%list.

(** [idl] is the identity call of a client certificate that parses. *)
Definition identity_calls_ok (E : Engine) (t : TlsSettings) (idl : list (BuilderCall E)) : Prop :=
  match client_certificate t with
  | Some cc => exists i, identity_from_pem E (identity_blob cc) = Ok i /\ idl = [identity i]
  | None => idl = []
  end.

(** [fbl] is the resolver call of a fallback that parses. *)
Definition fallback_calls_ok (E : Engine) (d : DnsSettings) (fbl : list (BuilderCall E)) : Prop :=
  match fallback d with
  | Some f => exists a, parses E f a /\ fbl = [dns_resolver (mkStaticResolver a)]
  | None => fbl = []
  end.

(** *** Settings every stage before [build] accepts *)

Definition tls_valid (E : Engine) (t : TlsSettings) : Prop :=
  Forall (fun cert => exists c, certificate_from_pem E cert = Ok c) (trusted_root_certificates t) /\
  match client_certificate t with
  | Some cc => exists i, identity_from_pem E (identity_blob cc) = Ok i
  | None => True
  end.

Definition dns_valid (E : Engine) (d : DnsSettings) : Prop :=
  match fallback d with
  | Some f => fails E f = false
  | None => True
  end /\
  Forall (fun e => Forall (fun ip => fails E ip = false) (snd e)) (overrides d).

Definition opt_valid {A : Type} (P : A -> Prop) (o : option A) : Prop :=
  match o with
  | Some a => P a
  | None => True
  end.

Definition settings_valid (E : Engine) (s : ClientSettings) : Prop :=
  Forall (fun d => 0 <= secs d) (timeout_durations (timeout_settings s)) /\
  opt_valid (tls_valid E) (tls_settings s) /\
  opt_valid (dns_valid E) (dns_settings s).

(** ** Properties of the pipeline *)

Section Properties.

Variable E : Engine.

(** [b'] is [b] followed by calls satisfying [P] only. *)
Definition ext (P : BuilderCall E -> Prop) (b b' : ClientBuilder E) : Prop :=
  exists l, b' = (b ++ l)%list /\ Forall P l.

(** Calls of group [G]. *)
Definition in_group (G : Group) (c : BuilderCall E) : Prop := group_of c = G.

(** Calls of the timeout group other than the three keep-alive effects. *)
Definition plain_timeout (c : BuilderCall E) : Prop :=
  group_of c = GTimeout /\ is_keep_alive_effect c = false.

Lemma ext_refl P b : ext P b b.
Proof. exists []. rewrite app_nil_r. auto. Qed.

Lemma ext_call P b b' c : ext P b b' -> P c -> ext P b (call b' c).
Proof.
  intros [l [-> Hl]] Hc. exists (l ++ [c])%list. unfold call.
  rewrite app_assoc. split; [reflexivity|]. apply Forall_app. auto.
Qed.

Lemma ext_trans P b1 b2 b3 : ext P b1 b2 -> ext P b2 b3 -> ext P b1 b3.
Proof.
  intros [l1 [-> H1]] [l2 [-> H2]]. exists (l1 ++ l2)%list.
  rewrite app_assoc. split; [reflexivity|]. apply Forall_app. auto.
Qed.

Lemma ext_mono (P Q : BuilderCall E -> Prop) b b' :
  (forall c, P c -> Q c) -> ext P b b' -> ext Q b b'.
Proof. intros HPQ [l [-> Hl]]. exists l. split; [reflexivity|]. eapply Forall_impl; eauto. Qed.

Lemma ext_in P b b' c : ext P b b' -> In c b -> In c b'.
Proof. intros [l [-> _]] H. apply in_or_app. auto. Qed.

Lemma bind_ok {A B F} (m : result A F) (k : A -> result B F) b :
  bind m k = Ok b -> exists a, m = Ok a /\ k a = Ok b.
Proof. destruct m; simpl; [eauto | discriminate]. Qed.

Ltac split_binds :=
  repeat match goal with
  | H : bind ?m ?k = Ok _ |- _ =>
      let a := fresh "a" in let Ha := fresh "Ha" in
      apply bind_ok in H; destruct H as (a & Ha & H)
  | H : Ok _ = Ok _ |- _ => injection H as H; subst
  | H : Err _ = Ok _ |- _ => discriminate H
  end.

Create HintDb pipeline.
Hint Resolve ext_refl ext_call : pipeline.
Hint Extern 1 (in_group _ _) => reflexivity : pipeline.
Hint Extern 1 (plain_timeout _) => split; reflexivity : pipeline.

Lemma apply_proxy_ext b ps : ext (in_group GProxy) b (apply_proxy E b ps).
Proof. destruct ps as [[]|]; simpl; eauto with pipeline. Qed.

Lemma apply_redirect_ext b rs : ext (in_group GRedirect) b (apply_redirect E b rs).
Proof. destruct rs as [[|n]|]; simpl; eauto with pipeline. Qed.

Lemma apply_keep_alive_ext b ka b' :
  apply_keep_alive E b ka = Ok b' -> ext (in_group GTimeout) b b'.
Proof.
  destruct ka as [d|]; simpl; intros H; split_binds; [|apply ext_refl].
  destruct (as_millis a >? 0); split_binds; eauto 6 with pipeline.
Qed.

Lemma opt_duration_ext (P : BuilderCall E -> Prop) b o (f : StdDuration -> BuilderCall E) b' :
  (forall d, P (f d)) ->
  match o with
  | Some d => let* d := to_std_err d in Ok (call b (f d))
  | None => Ok b
  end = Ok b' -> ext P b b'.
Proof.
  intros Hf. destruct o; simpl; intros H; split_binds; eauto with pipeline.
Qed.

Lemma apply_timeouts_ext b ts b' :
  apply_timeouts E b ts = Ok b' -> ext (in_group GTimeout) b b'.
Proof.
  destruct ts as [t|]; simpl; intros H; split_binds; [|apply ext_refl].
  eapply ext_trans; [eapply (opt_duration_ext _ _ _ timeout_call); [|eauto]; reflexivity|].
  eapply ext_trans;
    [eapply (opt_duration_ext _ _ _ connect_timeout_call); [|eauto]; reflexivity|].
  eapply ext_trans; [eapply apply_keep_alive_ext; eauto|].
  eapply (opt_duration_ext _ _ _ http2_keep_alive_interval); [|eauto]; reflexivity.
Qed.

Lemma add_root_certificates_ext b certs b' :
  add_root_certificates E b certs = Ok b' -> ext (in_group GTls) b b'.
Proof.
  revert b. induction certs as [|c certs IH]; simpl; intros b H; split_binds.
  - apply ext_refl.
  - destruct (certificate_from_pem E c); simpl in Ha; [|discriminate].
    eapply ext_trans; [|eapply IH; eauto]. eauto with pipeline.
Qed.

Lemma ext_if P b (c : bool) k : P k -> ext P b (if c then call b k else b).
Proof. destruct c; eauto with pipeline. Qed.

Lemma apply_tls_ext b ts b' : apply_tls E b ts = Ok b' -> ext (in_group GTls) b b'.
Proof.
  destruct ts as [t|]; simpl; intros H; split_binds; [|apply ext_refl].
  eapply ext_trans; [exact (ext_if (in_group GTls) _ (negb (trust_root_certificates t))
                             (tls_built_in_root_certs false) eq_refl)|].
  eapply ext_trans; [eapply add_root_certificates_ext; eauto|].
  eapply ext_trans; [exact (ext_if (in_group GTls) _ (negb (verify_certificates t))
                             (danger_accept_invalid_certs true) eq_refl)|].
  destruct (max_tls_version t); [apply ext_call; [|reflexivity]|];
  destruct (min_tls_version t); try (apply ext_call; [|reflexivity]);
  destruct (client_certificate t); simpl in Ha0; split_binds; try apply ext_refl;
  destruct (identity_from_pem E _); simpl in Ha1; split_binds; eauto with pipeline.
Qed.

Lemma apply_http_version_app b p :
  apply_http_version E b p = (b ++ apply_http_version E [] p)%list.
Proof. destruct p; simpl; unfold call; simpl; rewrite ?app_nil_r; reflexivity. Qed.

Lemma apply_http_version_group p :
  Forall (in_group GVersion) (apply_http_version E [] p).
Proof. destruct p; simpl; repeat constructor. Qed.

Lemma apply_overrides_ext b ovs b' :
  apply_overrides E b ovs = Ok b' -> ext (in_group GDns) b b'.
Proof.
  revert b. induction ovs as [|[h ips] ovs IH]; simpl; intros b H; split_binds.
  - apply ext_refl.
  - destruct (collect_ips E None ips) as [[err|] addrs]; [discriminate|].
    eapply ext_trans; [|eapply IH; eauto]. eauto with pipeline.
Qed.

Lemma apply_dns_ext b ds b' : apply_dns E b ds = Ok b' -> ext (in_group GDns) b b'.
Proof.
  destruct ds as [d|]; simpl; intros H; split_binds; [|apply ext_refl].
  eapply ext_trans; [|eapply apply_overrides_ext; eauto].
  destruct (fallback d) as [fb|]; split_binds; try apply ext_refl.
  destruct (socket_addr_from_str E _); split_binds; eauto with pipeline.
Qed.

(** The shape of a configured builder: the groups in order. *)
Lemma configure_groups s b :
  configure E s = Ok b ->
  exists lp lr lt ltls ld,
    b = (lp ++ lr ++ lt ++ ltls ++ apply_http_version E [] (http_version_pref s) ++ ld)%list /\
    Forall (in_group GProxy) lp /\
    Forall (in_group GRedirect) lr /\
    Forall (in_group GTimeout) lt /\
    Forall (in_group GTls) ltls /\
    Forall (in_group GDns) ld /\
    apply_timeouts E (lp ++ lr)%list (timeout_settings s) = Ok (lp ++ lr ++ lt)%list.
Proof.
  unfold configure. intros H. split_binds.
  destruct (apply_proxy_ext [] (proxy_settings s)) as [lp [Hp Fp]].
  destruct (apply_redirect_ext (apply_proxy E [] (proxy_settings s)) (redirect_settings s))
    as [lr [Hr Fr]].
  rewrite Hp in Hr, Ha. simpl in Hr, Ha. rewrite Hr in Ha.
  destruct (apply_timeouts_ext _ _ _ Ha) as [lt [Ht Ft]].
  destruct (apply_tls_ext _ _ _ Ha0) as [ltls [Htls Ftls]].
  destruct (apply_dns_ext _ _ _ H) as [ld [Hd Fd]].
  rewrite apply_http_version_app in Hd.
  exists lp, lr, lt, ltls, ld. repeat split; auto.
  - rewrite Hd, Htls, Ht. rewrite <- !app_assoc. reflexivity.
  - rewrite Ha, Ht. rewrite <- !app_assoc. reflexivity.
Qed.

Lemma apply_keep_alive_some b d b' :
  apply_keep_alive E b (Some d) = Ok b' ->
  exists sd, to_std d = Ok sd /\ b' = (b ++ keep_alive_calls sd)%list.
Proof.
  simpl. intros H. split_binds. unfold to_std_err in Ha.
  destruct (to_std d) as [sd|] eqn:Hd; simpl in Ha; [|discriminate]. split_binds.
  exists a. split; [reflexivity|]. unfold keep_alive_calls.
  destruct (as_millis a >? 0); split_binds; unfold call; rewrite <- ?app_assoc.
  - reflexivity.
  - rewrite app_nil_r. reflexivity.
Qed.

Lemma apply_timeouts_keep_alive b0 t d b1 :
  apply_timeouts E b0 (Some t) = Ok b1 -> keep_alive_timeout t = Some d ->
  exists l1 l2 sd, to_std d = Ok sd /\
    b1 = (b0 ++ l1 ++ keep_alive_calls sd ++ l2)%list /\
    Forall plain_timeout l1 /\ Forall plain_timeout l2.
Proof.
  simpl. intros H Hka. split_binds. rewrite Hka in Ha1.
  destruct (apply_keep_alive_some _ _ _ Ha1) as [sd [Hsd ->]].
  assert (E1 : ext plain_timeout b0 a0).
  { eapply ext_trans.
    - eapply (opt_duration_ext _ _ _ timeout_call); [|exact Ha].
      intros; split; reflexivity.
    - eapply (opt_duration_ext _ _ _ connect_timeout_call); [|exact Ha0].
      intros; split; reflexivity. }
  assert (E2 : ext plain_timeout (a0 ++ keep_alive_calls sd)%list b1).
  { eapply (opt_duration_ext _ _ _ http2_keep_alive_interval); [|exact H].
    intros; split; reflexivity. }
  destruct E1 as [l1 [-> F1]]. destruct E2 as [l2 [-> F2]].
  exists l1, l2, sd. repeat split; auto. rewrite <- !app_assoc. reflexivity.
Qed.

Lemma other_group_no_keep_alive G c :
  in_group G c -> G <> GTimeout -> is_keep_alive_effect c = false.
Proof. unfold in_group. destruct c; simpl; intros <- HG; congruence. Qed.

Lemma in_group_no_keep_alive G l :
  G <> GTimeout -> Forall (in_group G) l ->
  Forall (fun c => is_keep_alive_effect c = false) l.
Proof.
  intros HG Hl. eapply Forall_impl; [|exact Hl].
  intros c Hc. eapply other_group_no_keep_alive; eauto.
Qed.

Lemma plain_no_keep_alive l :
  Forall plain_timeout l -> Forall (fun c => is_keep_alive_effect c = false) l.
Proof. intros Hl. eapply Forall_impl; [|exact Hl]. intros c [_ Hc]. exact Hc. Qed.

(** The redirect call made by [apply_redirect] stays in the builder. *)
Lemma configure_keeps_redirect s b c :
  configure E s = Ok b -> In c (apply_redirect E (apply_proxy E [] (proxy_settings s))
                                  (redirect_settings s)) -> In c b.
Proof.
  unfold configure. intros H Hc. split_binds.
  eapply ext_in; [eapply apply_dns_ext; eauto|].
  rewrite apply_http_version_app. apply in_or_app. left.
  eapply ext_in; [eapply apply_tls_ext; eauto|].
  eapply ext_in; [eapply apply_timeouts_ext; eauto|]. exact Hc.
Qed.

(** C2 (amended).  The HTTP-version call(s) of [create_client] come after
    every proxy, redirect, timeout and TLS call and before every DNS call. *)
Theorem version_forcing_between_tls_and_dns s b :
  configure E s = Ok b ->
  exists pre post,
    b = (pre ++ apply_http_version E [] (http_version_pref s) ++ post)%list /\
    Forall (fun c => In (group_of c) [GProxy; GRedirect; GTimeout; GTls]) pre /\
    Forall (in_group GDns) post.
Proof.
  intros H.
  destruct (configure_groups _ _ H) as (lp & lr & lt & ltls & ld & -> & Fp & Fr & Ft & Ftls & Fd & _).
  exists (lp ++ lr ++ lt ++ ltls)%list, ld. split; [rewrite <- !app_assoc; reflexivity|].
  split; [|exact Fd].
  assert (Hsub : forall G l, In G [GProxy; GRedirect; GTimeout; GTls] ->
            Forall (in_group G) l ->
            Forall (fun c => In (group_of c) [GProxy; GRedirect; GTimeout; GTls]) l).
  { intros G l HG Hl. eapply Forall_impl; [|exact Hl].
    intros c Hc. unfold in_group in Hc. rewrite Hc. exact HG. }
  apply Forall_app; split; [eapply Hsub; [|exact Fp]; simpl; tauto|].
  apply Forall_app; split; [eapply Hsub; [|exact Fr]; simpl; tauto|].
  apply Forall_app; split; [eapply Hsub; [|exact Ft]; simpl; tauto|].
  eapply Hsub; [|exact Ftls]; simpl; tauto.
Qed.

(** C3 (amended).  A keep-alive timeout [d] is converted with [to_std]; when
    the converted duration has no whole millisecond none of the three
    keep-alive calls is made, otherwise all three are, with that duration. *)
Theorem keep_alive_gate_millis s t d b :
  timeout_settings s = Some t -> keep_alive_timeout t = Some d -> configure E s = Ok b ->
  exists sd, to_std d = Ok sd /\
    (as_millis sd <= 0 -> Forall (fun c => is_keep_alive_effect c = false) b) /\
    (0 < as_millis sd ->
     In (tcp_keepalive sd) b /\ In (http2_keep_alive_while_idle true) b /\
     In (http2_keep_alive_timeout sd) b).
Proof.
  intros Ht Hd H.
  destruct (configure_groups _ _ H) as (lp & lr & lt & ltls & ld & -> & Fp & Fr & Ft & Ftls & Fd & Hto).
  rewrite Ht in Hto.
  destruct (apply_timeouts_keep_alive _ _ _ _ Hto Hd) as (l1 & l2 & sd & Hsd & Heq & F1 & F2).
  rewrite <- !app_assoc in Heq. do 2 apply app_inv_head in Heq. subst lt.
  exists sd. split; [exact Hsd|]. split.
  - intros Hms. unfold keep_alive_calls.
    destruct (Z.gtb_spec (as_millis sd) 0); [lia|]. simpl.
    rewrite !Forall_app. repeat split.
    all: first [ apply plain_no_keep_alive; assumption
               | eapply in_group_no_keep_alive; [| eassumption]; discriminate
               | eapply in_group_no_keep_alive; [| apply apply_http_version_group];
                 discriminate ].
  - intros Hms. unfold keep_alive_calls.
    destruct (Z.gtb_spec (as_millis sd) 0); [|lia].
    rewrite !in_app_iff. simpl. tauto.
Qed.

Lemma i32_as_usize_value n :
  -2^31 <= n < 2^31 -> i32_as_usize n = if n <? 0 then n + 2^64 else n.
Proof.
  intros Hn. unfold i32_as_usize, usize_modulus.
  destruct (Z.ltb_spec n 0).
  - symmetry. apply (Z.mod_unique_pos n (2^64) (-1)); lia.
  - apply Z.mod_small. lia.
Qed.

(** C4 (amended).  [NoRedirect] gives [Policy::none()];
    [LimitedRedirects(n)] gives [Policy::limited(n as usize)], that is [n]
    when [n >= 0] and [2^64 + n] when [n < 0] (64-bit [usize]). *)
Theorem redirect_policy_as_usize s b :
  configure E s = Ok b ->
  (redirect_settings s = Some NoRedirect -> In (redirect Policy_none) b) /\
  (forall n, redirect_settings s = Some (LimitedRedirects n) -> -2^31 <= n < 2^31 ->
   In (redirect (Policy_limited (if n <? 0 then n + 2^64 else n))) b).
Proof.
  intros H. split.
  - intros Hr. eapply configure_keeps_redirect; [exact H|].
    rewrite Hr. simpl. unfold call. apply in_or_app. right. left. reflexivity.
  - intros n Hr Hn. eapply configure_keeps_redirect; [exact H|].
    rewrite Hr. simpl. unfold call. apply in_or_app. right. left.
    rewrite i32_as_usize_value by exact Hn. reflexivity.
Qed.

(** *** The override loop *)

Lemma collect_ips_error err ips :
  fst (collect_ips E err ips) =
  match last_failing E ips with
  | Some l => Some (invalid_ip_message l)
  | None => err
  end.
Proof.
  revert err. induction ips as [|ip rest IH]; intros err; [reflexivity|].
  cbn [collect_ips last_failing].
  unfold fails. destruct (socket_addr_from_str E (ip ++ ":" ++ dummy_port)) as [a|].
  - destruct (collect_ips E err rest) as [e addrs] eqn:Hc. simpl.
    specialize (IH err). rewrite Hc in IH. simpl in IH. rewrite IH.
    destruct (last_failing E rest); reflexivity.
  - rewrite IH. destruct (last_failing E rest); reflexivity.
Qed.

Lemma last_failing_sound ips l :
  last_failing E ips = Some l -> In l ips /\ fails E l = true.
Proof.
  induction ips as [|ip rest IH]; simpl; [discriminate|].
  destruct (last_failing E rest) as [l'|].
  - intros [= ->]. destruct (IH eq_refl). auto.
  - destruct (fails E ip) eqn:Hf; [intros [= ->]; auto | discriminate].
Qed.

Lemma last_failing_complete ips lit :
  In lit ips -> fails E lit = true -> exists l, last_failing E ips = Some l.
Proof.
  induction ips as [|ip rest IH]; simpl; [tauto|].
  intros Hin Hf. destruct (last_failing E rest) as [l'|]; [eauto|].
  destruct Hin as [->|Hin].
  - rewrite Hf. eauto.
  - destruct (IH Hin Hf) as [l Hl]. discriminate.
Qed.

Lemma apply_overrides_fail b ovs host ips lit :
  In (host, ips) ovs -> In lit ips -> fails E lit = true ->
  exists host' ips' lit',
    In (host', ips') ovs /\ last_failing E ips' = Some lit' /\
    apply_overrides E b ovs = Err (RhttpUnknownError (invalid_ip_message lit')).
Proof.
  revert b. induction ovs as [|[h ip] rest IH]; intros b Hin Hlit Hf; simpl in Hin; [tauto|].
  simpl. pose proof (collect_ips_error None ip) as He.
  destruct (collect_ips E None ip) as [error addrs]. simpl in He. rewrite He.
  destruct (last_failing E ip) as [l|] eqn:Hl.
  - exists h, ip, l. auto.
  - destruct Hin as [[= -> ->]|Hin].
    + destruct (last_failing_complete _ _ Hlit Hf) as [l Hl']. congruence.
    + destruct (IH (call b (resolve_to_addrs h addrs)) Hin Hlit Hf)
        as (h' & ip' & l' & Hin' & Hl' & Herr).
      exists h', ip', l'. auto.
Qed.

Lemma apply_overrides_ok b ovs b' :
  apply_overrides E b ovs = Ok b' ->
  Forall (fun e => last_failing E (snd e) = None) ovs /\
  b' = (b ++ map (override_call E) ovs)%list.
Proof.
  revert b. induction ovs as [|[h ip] rest IH]; intros b H; simpl in H.
  - injection H as <-. rewrite app_nil_r. auto.
  - pose proof (collect_ips_error None ip) as He.
    destruct (collect_ips E None ip) as [error addrs] eqn:Hc. simpl in He.
    destruct error; [discriminate|].
    destruct (IH _ H) as [Hall ->]. split.
    + constructor; [|exact Hall]. simpl. destruct (last_failing E ip); congruence.
    + unfold call, override_call. simpl. rewrite Hc. rewrite <- app_assoc. reflexivity.
Qed.

Lemma apply_overrides_all_ok b ovs :
  Forall (fun e => last_failing E (snd e) = None) ovs ->
  apply_overrides E b ovs = Ok (b ++ map (override_call E) ovs)%list.
Proof.
  revert b. induction ovs as [|[h ip] rest IH]; intros b Hall; cbn [apply_overrides map].
  - rewrite app_nil_r. reflexivity.
  - inversion Hall as [|? ? Hh Hrest]; subst. simpl in Hh.
    pose proof (collect_ips_error None ip) as He. rewrite Hh in He.
    unfold override_call at 1. cbn [fst snd].
    destruct (collect_ips E None ip) as [error addrs] eqn:Hc. simpl in He. subst error.
    rewrite (IH _ Hrest). unfold call. rewrite <- app_assoc. reflexivity.
Qed.

(** The prefix of the pipeline before the override loop. *)
Lemma configure_split_overrides s d :
  dns_settings s = Some d ->
  configure E s =
  bind (configure E (with_dns s (Some (mkDnsSettings [] (fallback d)))))
       (fun b0 => apply_overrides E b0 (overrides d)).
Proof.
  intros Hd. unfold configure, with_dns. simpl. rewrite Hd.
  destruct (apply_timeouts E _ (timeout_settings s)); simpl; [|reflexivity].
  destruct (apply_tls E _ (tls_settings s)); simpl; [|reflexivity].
  destruct (fallback d); simpl; [|reflexivity].
  destruct (socket_addr_from_str E _); reflexivity.
Qed.

(** *** Failing stages *)

Lemma configure_err_of_tls s :
  (forall b, exists e, apply_tls E b (tls_settings s) = Err e) ->
  exists e, configure E s = Err e.
Proof.
  intros H. unfold configure.
  destruct (apply_timeouts E _ (timeout_settings s)) as [b|e]; simpl; [|eauto].
  destruct (H b) as [e ->]. simpl. eauto.
Qed.

Lemma configure_err_of_dns s :
  (forall b, exists e, apply_dns E b (dns_settings s) = Err e) ->
  exists e, configure E s = Err e.
Proof.
  intros H. unfold configure.
  destruct (apply_timeouts E _ (timeout_settings s)) as [b|e]; simpl; [|eauto].
  destruct (apply_tls E _ (tls_settings s)) as [b'|e]; simpl; [|eauto].
  apply H.
Qed.

Lemma add_root_certificates_fail b certs cert e :
  In cert certs -> certificate_from_pem E cert = Err e ->
  exists cert' e', In cert' certs /\ certificate_from_pem E cert' = Err e' /\
    add_root_certificates E b certs = Err (RhttpUnknownError (trusted_cert_message E e')).
Proof.
  revert b. induction certs as [|c rest IH]; intros b Hin He; simpl in Hin; [tauto|].
  simpl. destruct (certificate_from_pem E c) as [x|e'] eqn:Hc; simpl.
  - destruct Hin as [->|Hin]; [congruence|].
    destruct (IH (call b (add_root_certificate x)) Hin He) as (c' & e'' & ? & ? & ?).
    exists c', e''. auto.
  - exists c, e'. auto.
Qed.

Lemma to_std_err_ok d : 0 <= secs d -> exists sd, to_std_err d = Ok sd.
Proof.
  intros H. unfold to_std_err, to_std. destruct (Z.ltb_spec (secs d) 0); [lia|]. simpl. eauto.
Qed.

Lemma apply_timeouts_total b ts :
  Forall (fun d => 0 <= secs d) (timeout_durations ts) ->
  exists b', apply_timeouts E b ts = Ok b'.
Proof.
  destruct ts as [t|]; simpl; [|eauto].
  destruct t as [t1 t2 t3 t4]; simpl.
  rewrite !Forall_app. intros (H1 & H2 & H3 & H4).
  assert (Hopt : forall (o : option ChronoDuration) b (f : StdDuration -> BuilderCall E),
            Forall (fun d => 0 <= secs d) (match o with Some d => [d] | None => [] end) ->
            exists b', match o with
                       | Some d => let* d := to_std_err d in Ok (call b (f d))
                       | None => Ok b
                       end = Ok b').
  { intros [d|] b0 f Hd; [|eauto]. inversion Hd; subst.
    destruct (to_std_err_ok d) as [sd Hsd]; auto. rewrite Hsd. simpl. eauto. }
  destruct (Hopt t1 b timeout_call H1) as [b1 Hb1]. rewrite Hb1. simpl.
  destruct (Hopt t2 b1 connect_timeout_call H2) as [b2 Hb2]. rewrite Hb2. simpl.
  assert (Hka : exists b3, apply_keep_alive E b2 t3 = Ok b3).
  { destruct t3 as [d|]; simpl; [|eauto]. inversion H3; subst.
    destruct (to_std_err_ok d) as [sd Hsd]; auto. rewrite Hsd. simpl.
    destruct (as_millis sd >? 0); eauto. }
  destruct Hka as [b3 Hb3]. rewrite Hb3. simpl. apply Hopt. exact H4.
Qed.

(** *** TLS identity *)

Lemma apply_tls_identity b t b' cc :
  apply_tls E b (Some t) = Ok b' -> client_certificate t = Some cc ->
  exists id, identity_from_pem E (identity_blob cc) = Ok id /\ In (identity id) b'.
Proof.
  intros H Hcc. cbn [apply_tls] in H. split_binds. rewrite Hcc in Ha0. split_binds.
  destruct (identity_from_pem E (identity_blob cc)) as [i|e]; simpl in Ha1; [|discriminate].
  split_binds. eexists. split; [reflexivity|].
  destruct (min_tls_version t), (max_tls_version t); unfold call;
    rewrite ?in_app_iff; simpl; tauto.
Qed.

Lemma apply_tls_identity_fail t cc e :
  client_certificate t = Some cc -> identity_from_pem E (identity_blob cc) = Err e ->
  forall b, exists e', apply_tls E b (Some t) = Err e'.
Proof.
  intros Hcc He b. cbn [apply_tls].
  destruct (add_root_certificates E _ _); simpl; [|eauto].
  rewrite Hcc, He. simpl. eauto.
Qed.

(** *** The whole of [create_client] *)

Variable build : ClientBuilder E -> result (Client E) (ReqwestError E).

Lemma create_client_of_configure_err s e :
  configure E s = Err e -> create_client E build s = Err e.
Proof. unfold create_client. intros ->. reflexivity. Qed.

Lemma create_client_ok s r :
  create_client E build s = Ok r ->
  exists b c, configure E s = Ok b /\ build b = Ok c /\
    r = mkRequestClient E c (http_version_pref s) (throw_on_status_code s) CancellationToken_new.
Proof.
  unfold create_client. intros H. split_binds.
  destruct (build a) as [c|e] eqn:Hb; simpl in Ha0; [|discriminate]. split_binds.
  eauto.
Qed.

(** C5.  [StaticResolver::resolve] ignores the name and returns its one
    address, ready and successful; a fallback that parses is installed as a
    [StaticResolver] bound to it; one that does not parse makes
    [create_client] fail. *)
Theorem static_resolver_fallback :
  (forall (r : StaticResolver E) (name : string), resolve E r name = Ready (Ok [address r])) /\
  (forall s d f b, dns_settings s = Some d -> fallback d = Some f -> configure E s = Ok b ->
   exists a, socket_addr_from_str E (f ++ ":" ++ dummy_port) = Some a /\
     In (dns_resolver (mkStaticResolver a)) b) /\
  (forall s d f, dns_settings s = Some d -> fallback d = Some f ->
   socket_addr_from_str E (f ++ ":" ++ dummy_port) = None ->
   exists e, create_client E build s = Err e).
Proof.
  split; [reflexivity|]. split.
  - intros s d f b Hd Hf H. unfold configure in H. split_binds.
    rewrite Hd in H. cbn [apply_dns] in H. split_binds. rewrite Hf in Ha1.
    destruct (socket_addr_from_str E (f ++ ":" ++ dummy_port)) as [sa|]; [|discriminate].
    split_binds. exists sa. split; [reflexivity|].
    eapply ext_in; [eapply apply_overrides_ext; exact H|].
    unfold call. apply in_or_app. right. left. reflexivity.
  - intros s d f Hd Hf Hp.
    destruct (configure_err_of_dns s) as [e He].
    + intros b. rewrite Hd. cbn [apply_dns]. rewrite Hf, Hp. simpl. eauto.
    + exists e. apply create_client_of_configure_err. exact He.
Qed.

(** C7.  The identity blob is the certificate, one newline byte and the
    private key; the identity reqwest receives is the one parsed from it,
    and a parse failure makes [create_client] fail. *)
Theorem client_identity_blob s t cc :
  tls_settings s = Some t -> client_certificate t = Some cc ->
  identity_blob cc = (certificate cc ++ [x0a] ++ private_key cc)%list /\
  (forall b, configure E s = Ok b ->
   exists id, identity_from_pem E (identity_blob cc) = Ok id /\ In (identity id) b) /\
  (forall e, identity_from_pem E (identity_blob cc) = Err e ->
   exists err, create_client E build s = Err err).
Proof.
  intros Ht Hcc. split; [reflexivity|]. split.
  - intros b H. unfold configure in H. split_binds. rewrite Ht in Ha0.
    destruct (apply_tls_identity _ _ _ _ Ha0 Hcc) as [id [Hid Hin]].
    exists id. split; [exact Hid|].
    eapply ext_in; [eapply apply_dns_ext; exact H|].
    rewrite apply_http_version_app. apply in_or_app. left. exact Hin.
  - intros e He. destruct (configure_err_of_tls s) as [err Herr].
    + rewrite Ht. exact (apply_tls_identity_fail _ _ _ Hcc He).
    + exists err. apply create_client_of_configure_err. exact Herr.
Qed.

(** C9.  The default settings, and the two fields a built client copies
    from its settings. *)
Theorem default_settings_and_fields :
  ClientSettings_default = mkClientSettings All None true None None None None /\
  (forall s r, create_client E build s = Ok r ->
   rc_http_version_pref r = http_version_pref s /\
   rc_throw_on_status_code r = throw_on_status_code s).
Proof.
  split; [reflexivity|].
  intros s r H. destruct (create_client_ok _ _ H) as (b & c & _ & _ & ->). auto.
Qed.

(** With the default settings no group applies a call and no stage of the
    pipeline can fail: the builder reaches [build] untouched. *)
Lemma configure_default : configure E ClientSettings_default = Ok [].
Proof. reflexivity. Qed.

End Properties.

(** ** Further properties of [create_client] *)

Section Coverage.

Variable E : Engine.

Ltac split_binds :=
  repeat match goal with
  | H : bind ?m ?k = Ok _ |- _ =>
      let a := fresh "a" in let Ha := fresh "Ha" in
      apply bind_ok in H; destruct H as (a & Ha & H)
  | H : Ok _ = Ok _ |- _ => injection H as H; subst
  | H : Err _ = Ok _ |- _ => discriminate H
  end.

(** *** Lists *)

Lemma Forall_exists_Forall2 {A B} (P : A -> B -> Prop) l :
  Forall (fun x => exists y, P x y) l -> exists l', Forall2 P l l'.
Proof.
  induction 1 as [|x l [y Hy] _ [l' Hl']]; [exists []; constructor|].
  exists (y :: l'). constructor; assumption.
Qed.

Lemma Forall2_Forall_exists {A B} (P : A -> B -> Prop) l l' :
  Forall2 P l l' -> Forall (fun x => exists y, P x y) l.
Proof. induction 1; constructor; eauto. Qed.

Lemma Forall_Forall2_map {A B} (P : A -> B -> Prop) (f : A -> B) l :
  Forall (fun x => P x (f x)) l -> Forall2 P l (map f l).
Proof. induction 1; constructor; assumption. Qed.

Lemma app_nil_inv {A} (l l' : list A) : l = (l ++ l')%list -> l' = [].
Proof.
  intros H. apply (app_inv_head l). rewrite app_nil_r. symmetry. exact H.
Qed.

(** *** Group views *)

Lemma calls_of_app G (l1 l2 : ClientBuilder E) :
  calls_of G (l1 ++ l2)%list = (calls_of G l1 ++ calls_of G l2)%list.
Proof. apply filter_app. Qed.

Lemma calls_of_group G G' (l : ClientBuilder E) :
  Forall (in_group E G') l -> calls_of G l = if Group_eq_dec G' G then l else [].
Proof.
  induction 1 as [|c l Hc Hl IH]; [destruct (Group_eq_dec G' G); reflexivity|].
  unfold calls_of in *. simpl. unfold in_group in Hc. rewrite Hc, IH.
  destruct (Group_eq_dec G' G); reflexivity.
Qed.

Lemma in_calls_of G c (b : ClientBuilder E) :
  group_of c = G -> (In c b <-> In c (calls_of G b)).
Proof.
  intros Hc. unfold calls_of. rewrite filter_In. rewrite Hc.
  destruct (Group_eq_dec G G); [tauto | congruence].
Qed.

Lemma root_certificates_of_app (l1 l2 : ClientBuilder E) :
  root_certificates_of (l1 ++ l2)%list = (root_certificates_of l1 ++ root_certificates_of l2)%list.
Proof. apply flat_map_app. Qed.

Lemma root_certificates_of_tls (b : ClientBuilder E) :
  root_certificates_of b = root_certificates_of (calls_of GTls b).
Proof.
  induction b as [|c b IH]; [reflexivity|].
  unfold calls_of in *. destruct c; simpl; rewrite IH; reflexivity.
Qed.

Lemma head_calls_groups s :
  head_calls E s = (apply_proxy E [] (proxy_settings s) ++
                    apply_redirect E [] (redirect_settings s))%list /\
  Forall (in_group E GProxy) (apply_proxy E [] (proxy_settings s)) /\
  Forall (in_group E GRedirect) (apply_redirect E [] (redirect_settings s)).
Proof.
  unfold head_calls.
  destruct (proxy_settings s) as [[]|], (redirect_settings s) as [[|n]|];
    repeat split; repeat constructor.
Qed.

(** The stages of a configured builder, each with the calls it appended. *)
Lemma configure_stages s b :
  configure E s = Ok b ->
  exists lt ltls ld,
    apply_timeouts E (head_calls E s) (timeout_settings s) = Ok (head_calls E s ++ lt)%list /\
    apply_tls E (head_calls E s ++ lt)%list (tls_settings s)
      = Ok (head_calls E s ++ lt ++ ltls)%list /\
    apply_dns E (head_calls E s ++ lt ++ ltls ++ apply_http_version E [] (http_version_pref s))%list
      (dns_settings s)
      = Ok b /\
    b = (head_calls E s ++ lt ++ ltls ++ apply_http_version E [] (http_version_pref s) ++ ld)%list /\
    Forall (in_group E GTimeout) lt /\ Forall (in_group E GTls) ltls /\
    Forall (in_group E GDns) ld.
Proof.
  unfold configure. intros H. split_binds. fold (head_calls E s) in Ha.
  destruct (apply_timeouts_ext E _ _ _ Ha) as [lt [-> Ft]].
  destruct (apply_tls_ext E _ _ _ Ha0) as [ltls [-> Ftls]].
  rewrite apply_http_version_app in H.
  destruct (apply_dns_ext E _ _ _ H) as [ld [Hb Fd]].
  exists lt, ltls, ld. rewrite <- !app_assoc in *.
  repeat split; auto.
Qed.

Lemma configure_calls_of s b :
  configure E s = Ok b ->
  exists lt ltls ld,
    apply_timeouts E (head_calls E s) (timeout_settings s) = Ok (head_calls E s ++ lt)%list /\
    apply_tls E (head_calls E s ++ lt)%list (tls_settings s)
      = Ok (head_calls E s ++ lt ++ ltls)%list /\
    apply_dns E (head_calls E s ++ lt ++ ltls ++ apply_http_version E [] (http_version_pref s))%list
      (dns_settings s)
      = Ok (head_calls E s ++ lt ++ ltls ++ apply_http_version E [] (http_version_pref s)
            ++ ld)%list /\
    calls_of GProxy b = apply_proxy E [] (proxy_settings s) /\
    calls_of GRedirect b = apply_redirect E [] (redirect_settings s) /\
    calls_of GTimeout b = lt /\ calls_of GTls b = ltls /\
    calls_of GVersion b = apply_http_version E [] (http_version_pref s) /\
    calls_of GDns b = ld.
Proof.
  intros H.
  destruct (configure_stages _ _ H) as (lt & ltls & ld & Ht & Htls & Hd & Hb & Ft & Ftls & Fd).
  destruct (head_calls_groups s) as (Hh & Fp & Fr).
  pose proof (apply_http_version_group E (http_version_pref s)) as Fv.
  exists lt, ltls, ld. rewrite <- Hb. repeat split; try assumption;
    rewrite Hb, Hh, <- app_assoc, !calls_of_app;
    rewrite (calls_of_group _ _ _ Fp), (calls_of_group _ _ _ Fr), (calls_of_group _ _ _ Ft),
      (calls_of_group _ _ _ Ftls), (calls_of_group _ _ _ Fv), (calls_of_group _ _ _ Fd);
    simpl; rewrite ?app_nil_r; reflexivity.
Qed.

(** *** Durations *)

Lemma to_std_err_cases d :
  (0 <= secs d /\ to_std_err d = Ok (std_of d)) \/
  (secs d < 0 /\ to_std_err d = Err (RhttpUnknownError out_of_range_error_to_string)).
Proof.
  unfold to_std_err, to_std, std_of.
  destruct (Z.ltb_spec (secs d) 0); [right | left]; split; auto; lia.
Qed.

Ltac duration_cases :=
  repeat match goal with
  | |- context [to_std_err ?d] =>
      let N := fresh "N" in let Eq := fresh "Eq" in
      destruct (to_std_err_cases d) as [[N Eq]|[N Eq]]; rewrite Eq; cbn [bind]
  | |- context [if as_millis ?x >? 0 then _ else _] => destruct (as_millis x >? 0)
  end.

Lemma apply_timeouts_shape b t b' :
  apply_timeouts E b (Some t) = Ok b' ->
  b' = (b ++ expected_timeout_calls t)%list /\
  Forall (fun d => 0 <= secs d) (timeout_durations (Some t)).
Proof.
  revert b'.
  destruct t as [[d1|] [d2|] [d3|] [d4|]];
    unfold expected_timeout_calls, keep_alive_calls; cbn - [to_std_err as_millis];
    duration_cases; intros b' H; try discriminate H; injection H as <-;
    unfold call; rewrite <- ?app_assoc;
    (split; [simpl; rewrite ?app_nil_r; reflexivity|]); simpl; repeat constructor; lia.
Qed.

Lemma apply_timeouts_neg b ts :
  Exists (fun d => secs d < 0) (timeout_durations ts) ->
  apply_timeouts E b ts = Err (RhttpUnknownError out_of_range_error_to_string).
Proof.
  destruct ts as [t|]; [|intros H; inversion H].
  destruct t as [[d1|] [d2|] [d3|] [d4|]]; cbn - [to_std_err as_millis];
    rewrite Exists_exists; intros (x & Hin & Hx);
    duration_cases; try reflexivity;
    exfalso; simpl in Hin; intuition (subst; lia).
Qed.

Lemma apply_timeouts_ok_iff b ts :
  (exists b', apply_timeouts E b ts = Ok b') <->
  Forall (fun d => 0 <= secs d) (timeout_durations ts).
Proof.
  split.
  - destruct ts as [t|]; [|intros _; constructor].
    intros [b' H]. exact (proj2 (apply_timeouts_shape _ _ _ H)).
  - apply apply_timeouts_total.
Qed.

(** *** TLS *)

Lemma add_root_certificates_shape b certs b' :
  add_root_certificates E b certs = Ok b' ->
  exists cs, Forall2 (fun cert c => certificate_from_pem E cert = Ok c) certs cs /\
    b' = (b ++ map add_root_certificate cs)%list.
Proof.
  revert b. induction certs as [|cert certs IH]; intros b H; simpl in H.
  - injection H as <-. exists []. rewrite app_nil_r. auto.
  - destruct (certificate_from_pem E cert) as [c|e] eqn:Hc; simpl in H; [|discriminate].
    destruct (IH _ H) as [cs [Hcs ->]]. exists (c :: cs). split; [constructor; assumption|].
    unfold call. rewrite <- app_assoc. reflexivity.
Qed.

Lemma add_root_certificates_all_ok b certs cs :
  Forall2 (fun cert c => certificate_from_pem E cert = Ok c) certs cs ->
  add_root_certificates E b certs = Ok (b ++ map add_root_certificate cs)%list.
Proof.
  intros H. revert b. induction H as [|cert c certs cs Hc _ IH]; intros b; simpl.
  - rewrite app_nil_r. reflexivity.
  - rewrite Hc. simpl. rewrite IH. unfold call. rewrite <- app_assoc. reflexivity.
Qed.

Lemma apply_tls_shape b t b' :
  apply_tls E b (Some t) = Ok b' ->
  exists cs idl,
    Forall2 (fun cert c => certificate_from_pem E cert = Ok c) (trusted_root_certificates t) cs /\
    identity_calls_ok E t idl /\ b' = (b ++ tls_calls t cs idl)%list.
Proof.
  intros H. cbn [apply_tls] in H. split_binds.
  destruct (add_root_certificates_shape _ _ _ Ha) as [cs [Hcs ->]].
  unfold identity_calls_ok, tls_calls.
  destruct (client_certificate t) as [cc|].
  - destruct (identity_from_pem E (identity_blob cc)) as [i|e] eqn:Hi; simpl in Ha0;
      [|discriminate]. split_binds.
    exists cs, [identity i]. split; [assumption|]. split; [eauto|].
    destruct (trust_root_certificates t), (verify_certificates t),
      (min_tls_version t), (max_tls_version t);
      unfold call; simpl; rewrite <- !app_assoc; reflexivity.
  - split_binds. exists cs, []. split; [assumption|]. split; [reflexivity|].
    destruct (trust_root_certificates t), (verify_certificates t),
      (min_tls_version t), (max_tls_version t);
      unfold call; simpl; rewrite <- ?app_assoc; simpl; rewrite ?app_nil_r; reflexivity.
Qed.

Lemma apply_tls_ok b t :
  tls_valid E t -> exists b', apply_tls E b (Some t) = Ok b'.
Proof.
  intros [Hcerts Hid]. destruct (Forall_exists_Forall2 _ _ Hcerts) as [cs Hcs].
  cbn [apply_tls]. rewrite (add_root_certificates_all_ok _ _ _ Hcs). cbn [bind].
  destruct (client_certificate t) as [cc|].
  - destruct Hid as [i Hi]. rewrite Hi. simpl. eauto.
  - simpl. eauto.
Qed.

(** *** DNS *)

Lemma last_failing_none ips :
  last_failing E ips = None <-> Forall (fun ip => fails E ip = false) ips.
Proof.
  induction ips as [|ip ips IH]; simpl; [split; auto|].
  destruct (last_failing E ips) as [l|].
  - split; [discriminate|]. intros H. inversion H as [|? ? _ Hr]; subst.
    apply IH in Hr. discriminate.
  - destruct (fails E ip) eqn:Hf.
    + split; [discriminate|]. intros H. inversion H; congruence.
    + split; [intros _; constructor; [assumption | apply IH; reflexivity] | reflexivity].
Qed.

Lemma last_failing_app l1 l2 :
  last_failing E (l1 ++ l2)%list =
  match last_failing E l2 with
  | Some l => Some l
  | None => last_failing E l1
  end.
Proof.
  induction l1 as [|ip l1 IH]; simpl.
  - destruct (last_failing E l2); reflexivity.
  - rewrite IH. destruct (last_failing E l2); reflexivity.
Qed.

Lemma collect_ips_parsed err ips :
  last_failing E ips = None ->
  Forall2 (parses E) ips (snd (collect_ips E err ips)).
Proof.
  induction ips as [|ip ips IH]; intros H; [constructor|].
  simpl in H. destruct (last_failing E ips); [discriminate|].
  unfold fails in H. cbn [collect_ips].
  destruct (socket_addr_from_str E (ip ++ ":" ++ dummy_port)) as [a|] eqn:Ha; [|discriminate].
  specialize (IH eq_refl). destruct (collect_ips E err ips) as [e addrs]. simpl in *.
  constructor; assumption.
Qed.

Lemma apply_dns_shape b d b' :
  apply_dns E b (Some d) = Ok b' ->
  exists fbl, fallback_calls_ok E d fbl /\
    Forall (fun e => last_failing E (snd e) = None) (overrides d) /\
    b' = (b ++ fbl ++ map (override_call E) (overrides d))%list.
Proof.
  intros H. cbn [apply_dns] in H. split_binds. unfold fallback_calls_ok, parses.
  destruct (fallback d) as [f|].
  - destruct (socket_addr_from_str E (f ++ ":" ++ dummy_port)) as [sa|] eqn:Hs;
      [|discriminate]. split_binds.
    destruct (apply_overrides_ok E _ _ _ H) as [Hall ->].
    exists [dns_resolver (mkStaticResolver sa)]. split; [eauto|]. split; [assumption|].
    unfold call. rewrite <- app_assoc. reflexivity.
  - split_binds. destruct (apply_overrides_ok E _ _ _ H) as [Hall ->].
    exists []. auto.
Qed.

Lemma apply_dns_ok b d :
  dns_valid E d -> exists b', apply_dns E b (Some d) = Ok b'.
Proof.
  intros [Hfb Hov].
  assert (Hall : Forall (fun e => last_failing E (snd e) = None) (overrides d)).
  { eapply Forall_impl; [|exact Hov]. intros e He. apply last_failing_none. exact He. }
  cbn [apply_dns]. destruct (fallback d) as [f|].
  - unfold fails in Hfb.
    destruct (socket_addr_from_str E (f ++ ":" ++ dummy_port)); [|discriminate].
    cbn [bind]. rewrite apply_overrides_all_ok by exact Hall. eauto.
  - cbn [bind]. rewrite apply_overrides_all_ok by exact Hall. eauto.
Qed.

Lemma apply_overrides_valid_prefix b pre rest :
  Forall (fun e => last_failing E (snd e) = None) pre ->
  apply_overrides E b (pre ++ rest)%list
  = apply_overrides E (b ++ map (override_call E) pre)%list rest.
Proof.
  revert b. induction pre as [|[h ips] pre IH]; intros b Hall; cbn [app apply_overrides map].
  - rewrite app_nil_r. reflexivity.
  - inversion Hall as [|? ? Hh Hrest]; subst. simpl in Hh.
    pose proof (collect_ips_error E None ips) as He. rewrite Hh in He.
    change (override_call E (h, ips)) with (resolve_to_addrs h (snd (collect_ips E None ips))).
    destruct (collect_ips E None ips) as [error addrs]. simpl in He. subst error.
    rewrite (IH _ Hrest). unfold call. rewrite <- app_assoc. reflexivity.
Qed.

(** The prefix of the pipeline before the DNS group. *)
Lemma configure_split_dns s :
  configure E s =
  bind (configure E (with_dns s None)) (fun b0 => apply_dns E b0 (dns_settings s)).
Proof.
  unfold configure, with_dns. simpl.
  destruct (apply_timeouts E _ (timeout_settings s)); simpl; [|reflexivity].
  destruct (apply_tls E _ (tls_settings s)); reflexivity.
Qed.

(** Success before [build]: every timeout duration is non-negative, every
    trusted root certificate and the client identity parse, and the DNS
    fallback and every override literal parse as socket addresses. *)
Theorem configure_ok_iff s :
  (exists b, configure E s = Ok b) <-> settings_valid E s.
Proof.
  split.
  - intros [b H].
    destruct (configure_stages _ _ H) as (lt & ltls & ld & Ht & Htls & Hd & _).
    split; [|split].
    + apply (proj1 (apply_timeouts_ok_iff (head_calls E s) _)). eauto.
    + destruct (tls_settings s) as [t|]; simpl; [|exact I].
      destruct (apply_tls_shape _ _ _ Htls) as (cs & idl & Hcs & Hid & _).
      split; [exact (Forall2_Forall_exists _ _ _ Hcs)|].
      unfold identity_calls_ok in Hid. destruct (client_certificate t); [|exact I].
      destruct Hid as (i & Hi & _). eauto.
    + destruct (dns_settings s) as [d|]; simpl; [|exact I].
      destruct (apply_dns_shape _ _ _ Hd) as (fbl & Hfb & Hall & _).
      split.
      * unfold fallback_calls_ok, parses in Hfb. destruct (fallback d); [|exact I].
        destruct Hfb as (a & Ha & _). unfold fails. rewrite Ha. reflexivity.
      * eapply Forall_impl; [|exact Hall]. intros e He. apply last_failing_none. exact He.
  - intros (Ht & Htls & Hd). unfold configure. cbv zeta. fold (head_calls E s).
    destruct (apply_timeouts_total E (head_calls E s) _ Ht) as [b1 Hb1]. rewrite Hb1. cbn [bind].
    destruct (tls_settings s) as [t|].
    + destruct (apply_tls_ok b1 t Htls) as [b2 Hb2]. rewrite Hb2. cbn [bind].
      destruct (dns_settings s) as [d|]; [apply apply_dns_ok; exact Hd | simpl; eauto].
    + cbn [apply_tls bind].
      destruct (dns_settings s) as [d|]; [apply apply_dns_ok; exact Hd | simpl; eauto].
Qed.

(** The timeout group calls: [timeout], [connect_timeout], the keep-alive
    calls (only when the duration has a whole millisecond) and
    [http2_keep_alive_interval], in this order, each with the value of the
    chrono duration; nothing else. *)
Theorem timeout_group_calls s t b :
  configure E s = Ok b -> timeout_settings s = Some t ->
  calls_of GTimeout b = expected_timeout_calls t.
Proof.
  intros H Hts.
  destruct (configure_calls_of _ _ H) as (lt & ltls & ld & Ht & _ & _ & _ & _ & Hlt & _).
  rewrite Hts in Ht. destruct (apply_timeouts_shape _ _ _ Ht) as [Heq _].
  rewrite Hlt. apply (app_inv_head (head_calls E s)). exact Heq.
Qed.

(** A group that is absent from the settings makes no call of its own. *)
Theorem absent_groups_no_calls s b :
  configure E s = Ok b ->
  (proxy_settings s = None -> calls_of GProxy b = []) /\
  (redirect_settings s = None -> calls_of GRedirect b = []) /\
  (timeout_settings s = None -> calls_of GTimeout b = []) /\
  (tls_settings s = None -> calls_of GTls b = []) /\
  (http_version_pref s = All -> calls_of GVersion b = []) /\
  (dns_settings s = None -> calls_of GDns b = []).
Proof.
  intros H.
  destruct (configure_calls_of _ _ H)
    as (lt & ltls & ld & Ht & Htls & Hd & Hp & Hr & Hlt & Hltls & Hv & Hld).
  repeat split; intros Hn.
  - rewrite Hp, Hn. reflexivity.
  - rewrite Hr, Hn. reflexivity.
  - rewrite Hlt. rewrite Hn in Ht. injection Ht as Ht. exact (app_nil_inv _ _ Ht).
  - rewrite Hltls. rewrite Hn in Htls. injection Htls as Htls.
    rewrite app_assoc in Htls. exact (app_nil_inv _ _ Htls).
  - rewrite Hv, Hn. reflexivity.
  - rewrite Hld. rewrite Hn in Hd. injection Hd as Hd.
    rewrite !app_assoc in Hd. exact (app_nil_inv _ _ Hd).
Qed.

(** The proxy, redirect and HTTP-version calls: at most one of each, as
    the settings select; [Http10] and [Http11] both give [http1_only]. *)
Theorem proxy_redirect_version_calls s b :
  configure E s = Ok b ->
  calls_of GProxy b = match proxy_settings s with
                      | Some NoProxy => [no_proxy]
                      | None => []
                      end /\
  calls_of GRedirect b = match redirect_settings s with
                         | Some NoRedirect => [redirect Policy_none]
                         | Some (LimitedRedirects n) => [redirect (Policy_limited (i32_as_usize n))]
                         | None => []
                         end /\
  calls_of GVersion b = match http_version_pref s with
                        | Http10 | Http11 => [http1_only]
                        | Http2 => [http2_prior_knowledge]
                        | Http3 => [http3_prior_knowledge]
                        | All => []
                        end.
Proof.
  intros H.
  destruct (configure_calls_of _ _ H) as (_ & _ & _ & _ & _ & _ & Hp & Hr & _ & _ & Hv & _).
  rewrite Hp, Hr, Hv.
  destruct (proxy_settings s) as [[]|], (redirect_settings s) as [[|n]|],
    (http_version_pref s); repeat split.
Qed.

(** The TLS-group calls of a configured builder. *)
Lemma configure_tls_calls s t b :
  configure E s = Ok b -> tls_settings s = Some t ->
  exists cs idl,
    Forall2 (fun cert c => certificate_from_pem E cert = Ok c) (trusted_root_certificates t) cs /\
    identity_calls_ok E t idl /\ calls_of GTls b = tls_calls t cs idl.
Proof.
  intros H Hts.
  destruct (configure_calls_of _ _ H) as (lt & ltls & ld & _ & Htls & _ & _ & _ & _ & Hl & _).
  rewrite Hts in Htls.
  destruct (apply_tls_shape _ _ _ Htls) as (cs & idl & Hcs & Hid & Heq).
  exists cs, idl. repeat split; auto. rewrite Hl.
  apply (app_inv_head (head_calls E s ++ lt)%list). rewrite <- !app_assoc.
  rewrite <- !app_assoc in Heq. exact Heq.
Qed.

(** The TLS group calls, in order: [tls_built_in_root_certs(false)] when
    built-in roots are not trusted, one [add_root_certificate] per trusted
    certificate as parsed, [danger_accept_invalid_certs(true)] when
    certificates are not verified, the parsed identity, then the minimum
    and maximum TLS versions. *)
Theorem tls_group_calls s t b :
  configure E s = Ok b -> tls_settings s = Some t ->
  exists cs idl,
    Forall2 (fun cert c => certificate_from_pem E cert = Ok c) (trusted_root_certificates t) cs /\
    identity_calls_ok E t idl /\ calls_of GTls b = tls_calls t cs idl.
Proof.
  intros H Hts.
  destruct (configure_calls_of _ _ H) as (lt & ltls & ld & _ & Htls & _ & _ & _ & _ & Hl & _).
  rewrite Hts in Htls.
  destruct (apply_tls_shape _ _ _ Htls) as (cs & idl & Hcs & Hid & Heq).
  exists cs, idl. repeat split; auto. rewrite Hl.
  apply (app_inv_head (head_calls E s ++ lt)%list). rewrite <- !app_assoc.
  rewrite <- !app_assoc in Heq. exact Heq.
Qed.

Lemma in_tls_calls_other c t (cs : list (Certificate E)) idl :
  identity_calls_ok E t idl ->
  In c (tls_calls t cs idl) ->
  match c with
  | tls_built_in_root_certs x => x = false /\ trust_root_certificates t = false
  | danger_accept_invalid_certs x => x = true /\ verify_certificates t = false
  | min_tls_version_call v => exists v0, min_tls_version t = Some v0 /\ v = map_tls_version v0
  | max_tls_version_call v => exists v0, max_tls_version t = Some v0 /\ v = map_tls_version v0
  | _ => True
  end.
Proof.
  unfold tls_calls, identity_calls_ok. intros Hid Hin.
  rewrite !in_app_iff in Hin.
  destruct Hin as [Hin|[Hin|[Hin|[Hin|[Hin|Hin]]]]].
  - destruct (trust_root_certificates t); simpl in Hin; [tauto|].
    destruct Hin as [<-|[]]. auto.
  - apply in_map_iff in Hin. destruct Hin as (x & <- & _). exact I.
  - destruct (verify_certificates t); simpl in Hin; [tauto|].
    destruct Hin as [<-|[]]. auto.
  - destruct (client_certificate t).
    + destruct Hid as (i & _ & ->). destruct Hin as [<-|[]]. exact I.
    + subst idl. destruct Hin.
  - destruct (min_tls_version t) as [v|]; simpl in Hin; [|tauto].
    destruct Hin as [<-|[]]. eauto.
  - destruct (max_tls_version t) as [v|]; simpl in Hin; [|tauto].
    destruct Hin as [<-|[]]. eauto.
Qed.

(** The TLS switches: built-in roots are turned off, and certificate
    verification is turned off, exactly when the settings say so (the
    calls are never made with the opposite argument); the minimum and
    maximum TLS versions are passed exactly when set, [Tls1_2] as
    [TLS_1_2] and [Tls1_3] as [TLS_1_3]. *)
Theorem tls_switches s t b :
  configure E s = Ok b -> tls_settings s = Some t ->
  (forall x, In (tls_built_in_root_certs x) b <-> x = false /\ trust_root_certificates t = false) /\
  (forall x, In (danger_accept_invalid_certs x) b <-> x = true /\ verify_certificates t = false) /\
  (forall v, In (min_tls_version_call v) b <->
             exists v0, min_tls_version t = Some v0 /\ v = map_tls_version v0) /\
  (forall v, In (max_tls_version_call v) b <->
             exists v0, max_tls_version t = Some v0 /\ v = map_tls_version v0).
Proof.
  intros H Hts.
  destruct (configure_tls_calls _ _ _ H Hts) as (cs & idl & _ & Hid & Hcalls).
  assert (Hin : forall c, group_of c = GTls -> In c b <-> In c (tls_calls t cs idl)).
  { intros c Hc. rewrite (in_calls_of _ c b Hc), Hcalls. reflexivity. }
  unfold tls_calls in Hin.
  split; [|split; [|split]]; intros x; split;
    try (intros Hx; match type of Hx with
                    | In ?c _ => exact (in_tls_calls_other c _ _ _ Hid (proj1 (Hin c eq_refl) Hx))
                    end).
  - intros [-> Ht]. apply (proj2 (Hin (tls_built_in_root_certs false) eq_refl)). rewrite Ht. simpl. intuition.
  - intros [-> Hv]. apply (proj2 (Hin (danger_accept_invalid_certs true) eq_refl)). rewrite Hv. rewrite !in_app_iff. simpl. intuition.
  - intros (v0 & Hv0 & ->).
    apply (proj2 (Hin (min_tls_version_call (map_tls_version v0)) eq_refl)). rewrite Hv0.
    rewrite !in_app_iff. simpl. intuition.
  - intros (v0 & Hv0 & ->).
    apply (proj2 (Hin (max_tls_version_call (map_tls_version v0)) eq_refl)). rewrite Hv0.
    rewrite !in_app_iff. simpl. intuition.
Qed.

(** The root certificates added to a configured builder are the trusted
    root certificates of the settings, each parsed, in their order: none is
    skipped and none is added twice. *)
Theorem root_certificates_added s t b :
  configure E s = Ok b -> tls_settings s = Some t ->
  Forall2 (fun cert c => certificate_from_pem E cert = Ok c)
    (trusted_root_certificates t) (root_certificates_of b).
Proof.
  intros H Hts.
  destruct (configure_tls_calls _ _ _ H Hts) as (cs & idl & Hcs & Hid & Hcalls).
  rewrite root_certificates_of_tls, Hcalls. unfold tls_calls.
  rewrite !root_certificates_of_app.
  assert (Hmap : forall l : list (Certificate E),
            root_certificates_of (map (add_root_certificate (E := E)) l) = l).
  { induction l as [|c l IH]; [reflexivity|]. simpl. f_equal. exact IH. }
  assert (Hidl : root_certificates_of idl = []).
  { unfold identity_calls_ok in Hid. destruct (client_certificate t).
    - destruct Hid as (i & _ & ->). reflexivity.
    - subst. reflexivity. }
  rewrite Hmap, Hidl.
  destruct (trust_root_certificates t), (verify_certificates t),
    (min_tls_version t), (max_tls_version t); simpl; rewrite ?app_nil_r; exact Hcs.
Qed.

(** The DNS group calls: the fallback resolver first, bound to the parsed
    fallback, then one [resolve_to_addrs] per override entry, in the map's
    iteration order, with every literal of the entry parsed, in order. *)
Theorem dns_group_calls s d b :
  configure E s = Ok b -> dns_settings s = Some d ->
  exists fbl ovl,
    fallback_calls_ok E d fbl /\
    Forall2 (fun e c => exists addrs, c = resolve_to_addrs (fst e) addrs /\
                                      Forall2 (parses E) (snd e) addrs)
      (overrides d) ovl /\
    calls_of GDns b = (fbl ++ ovl)%list.
Proof.
  intros H Hds.
  destruct (configure_calls_of _ _ H) as (lt & ltls & ld & _ & _ & Hd & _ & _ & _ & _ & _ & Hl).
  rewrite Hds in Hd.
  destruct (apply_dns_shape _ _ _ Hd) as (fbl & Hfb & Hall & Heq).
  exists fbl, (map (override_call E) (overrides d)). split; [exact Hfb|]. split.
  - apply Forall_Forall2_map. eapply Forall_impl; [|exact Hall].
    intros [h ips] Hips. simpl in Hips. eexists. split; [reflexivity|].
    apply collect_ips_parsed. exact Hips.
  - rewrite Hl.
    apply (app_inv_head
             (head_calls E s ++ lt ++ ltls ++ apply_http_version E [] (http_version_pref s))%list).
    rewrite <- !app_assoc in *. exact Heq.
Qed.

(** A literal list whose last failing literal is [lit]: [lit] fails and
    every literal after it parses. *)
Lemma last_failing_split ips lit :
  last_failing E ips = Some lit ->
  exists ips1 ips2, ips = (ips1 ++ lit :: ips2)%list /\ fails E lit = true /\
    Forall (fun ip => fails E ip = false) ips2.
Proof.
  induction ips as [|ip rest IH]; simpl; [discriminate|].
  destruct (last_failing E rest) as [l|] eqn:Hr.
  - intros Heq. injection Heq as Heq. subst l.
    destruct (IH eq_refl) as (i1 & i2 & Hrest & Hf & Hall).
    exists (ip :: i1), i2. rewrite Hrest. auto.
  - destruct (fails E ip) eqn:Hf; [|discriminate].
    intros Heq. injection Heq as Heq. subst ip.
    exists [], rest. split; [reflexivity|]. split; [exact Hf|].
    apply last_failing_none. exact Hr.
Qed.

(** The override loop stops at the first entry with a failing literal and
    reports its last failing literal. *)
Lemma apply_overrides_first_fail b ovs host ips lit :
  In (host, ips) ovs -> In lit ips -> fails E lit = true ->
  exists pre host' ips' post ips1 lit' ips2,
    ovs = (pre ++ (host', ips') :: post)%list /\
    Forall (fun e => Forall (fun ip => fails E ip = false) (snd e)) pre /\
    ips' = (ips1 ++ lit' :: ips2)%list /\ fails E lit' = true /\
    Forall (fun ip => fails E ip = false) ips2 /\
    apply_overrides E b ovs = Err (RhttpUnknownError (invalid_ip_message lit')).
Proof.
  revert b. induction ovs as [|[h ip] rest IH]; intros b Hin Hlit Hf; simpl in Hin; [tauto|].
  cbn [apply_overrides].
  pose proof (collect_ips_error E None ip) as He.
  destruct (last_failing E ip) as [l|] eqn:Hl.
  - destruct (last_failing_split _ _ Hl) as (i1 & i2 & Hip & Hfl & Hall).
    destruct (collect_ips E None ip) as [error addrs]. simpl in He. subst error.
    exists [], h, ip, rest, i1, l, i2.
    split; [reflexivity|]. split; [constructor|]. auto.
  - destruct Hin as [Heq|Hin].
    + injection Heq as Hh Hi. subst.
      destruct (last_failing_complete E _ _ Hlit Hf) as [l Hl']. congruence.
    + destruct (collect_ips E None ip) as [error addrs]. simpl in He. subst error.
      destruct (IH (call b (resolve_to_addrs h addrs)) Hin Hlit Hf)
        as (pre & h' & ip' & post & i1 & l & i2 & Hov & Hpre & Hip & Hfl & Hall & Herr).
      subst rest. exists ((h, ip) :: pre), h', ip', post, i1, l, i2.
      split; [reflexivity|]. split.
      * constructor; [apply last_failing_none; exact Hl | exact Hpre].
      * auto.
Qed.

(** The certificate loop stops at the first certificate that does not
    parse and reports its error. *)
Lemma add_root_certificates_first_fail b certs cert e :
  In cert certs -> certificate_from_pem E cert = Err e ->
  exists pre cert' post e',
    certs = (pre ++ cert' :: post)%list /\
    Forall (fun c => exists x, certificate_from_pem E c = Ok x) pre /\
    certificate_from_pem E cert' = Err e' /\
    add_root_certificates E b certs = Err (RhttpUnknownError (trusted_cert_message E e')).
Proof.
  revert b. induction certs as [|c rest IH]; intros b Hin He; simpl in Hin; [tauto|].
  cbn [add_root_certificates].
  destruct (certificate_from_pem E c) as [x|e'] eqn:Hc; cbn [map_err bind].
  - destruct Hin as [->|Hin]; [congruence|].
    destruct (IH (call b (add_root_certificate x)) Hin He)
      as (pre & c' & post & e'' & Hrest & Hpre & Hc' & Herr).
    subst rest. exists (c :: pre), c', post, e''.
    split; [reflexivity|]. split; [constructor; eauto|]. auto.
  - exists [], c, rest, e'. split; [reflexivity|]. split; [constructor|]. auto.
Qed.

Variable build : ClientBuilder E -> result (Client E) (ReqwestError E).

(** A negative timeout duration makes [create_client] fail with chrono's
    out-of-range message, whatever the TLS and DNS settings are. *)
Theorem negative_timeout_error s :
  Exists (fun d => secs d < 0) (timeout_durations (timeout_settings s)) ->
  create_client E build s = Err (RhttpUnknownError out_of_range_error_to_string).
Proof.
  intros H. apply create_client_of_configure_err.
  unfold configure. cbv zeta. rewrite (apply_timeouts_neg _ _ H). reflexivity.
Qed.

(** A client identity that does not parse, after valid timeouts and
    trusted root certificates, gives the [Debug] form of reqwest's error. *)
Theorem identity_error_message s t cc e :
  tls_settings s = Some t -> client_certificate t = Some cc ->
  Forall (fun d => 0 <= secs d) (timeout_durations (timeout_settings s)) ->
  Forall (fun cert => exists c, certificate_from_pem E cert = Ok c) (trusted_root_certificates t) ->
  identity_from_pem E (identity_blob cc) = Err e ->
  create_client E build s = Err (RhttpUnknownError (reqwest_error_debug E e)).
Proof.
  intros Hts Hcc Ht Hcerts He. apply create_client_of_configure_err.
  destruct (Forall_exists_Forall2 _ _ Hcerts) as [cs Hcs].
  unfold configure. cbv zeta. fold (head_calls E s).
  destruct (apply_timeouts_total E (head_calls E s) _ Ht) as [b1 Hb1]. rewrite Hb1. cbn [bind].
  rewrite Hts. cbn [apply_tls]. rewrite (add_root_certificates_all_ok _ _ _ Hcs). cbn [bind].
  rewrite Hcc, He. reflexivity.
Qed.

(** A fallback that does not parse, after successful earlier stages, gives
    [AddrParseError(Socket)], whatever the overrides are. *)
Theorem fallback_error_message s d f b0 :
  dns_settings s = Some d -> fallback d = Some f -> fails E f = true ->
  configure E (with_dns s None) = Ok b0 ->
  create_client E build s = Err (RhttpUnknownError addr_parse_error_debug).
Proof.
  intros Hds Hf Hfail Hb0. apply create_client_of_configure_err.
  rewrite configure_split_dns, Hb0. cbn [bind]. rewrite Hds. cbn [apply_dns].
  rewrite Hf. unfold fails in Hfail.
  destruct (socket_addr_from_str E (f ++ ":" ++ dummy_port)); [discriminate | reflexivity].
Qed.

(** Which override literal the error names: in the first entry (in
    iteration order) with a literal that does not parse, the last such
    literal. *)
Theorem override_error_names_last_literal s d b0 pre host ips post ips1 lit ips2 :
  dns_settings s = Some d ->
  configure E (with_dns s (Some (mkDnsSettings [] (fallback d)))) = Ok b0 ->
  overrides d = (pre ++ (host, ips) :: post)%list ->
  Forall (fun e => Forall (fun ip => fails E ip = false) (snd e)) pre ->
  ips = (ips1 ++ lit :: ips2)%list -> fails E lit = true ->
  Forall (fun ip => fails E ip = false) ips2 ->
  create_client E build s = Err (RhttpUnknownError (invalid_ip_message lit)).
Proof.
  intros Hds Hb0 Hov Hpre Hips Hlit Hrest. apply create_client_of_configure_err.
  rewrite (configure_split_overrides E _ _ Hds), Hb0. cbn [bind].
  rewrite Hov, apply_overrides_valid_prefix.
  - cbn [apply_overrides].
    pose proof (collect_ips_error E None ips) as He.
    assert (Hl : last_failing E ips = Some lit).
    { rewrite Hips, last_failing_app. simpl.
      apply last_failing_none in Hrest. rewrite Hrest, Hlit. reflexivity. }
    rewrite Hl in He.
    destruct (collect_ips E None ips) as [error addrs]. simpl in He. subst error.
    reflexivity.
  - eapply Forall_impl; [|exact Hpre]. intros e He. apply last_failing_none. exact He.
Qed.

(** [RequestClient::new_default] panics exactly when reqwest's [build]
    fails on a builder with no call made; otherwise it returns a client
    with preference [All], [throw_on_status_code = true] and a live
    cancellation token. *)
Theorem new_default_outcome :
  (RequestClient_new_default E build = None <-> exists e, build [] = Err e) /\
  (forall r, RequestClient_new_default E build = Some r ->
   exists c, build [] = Ok c /\
     r = mkRequestClient E c All true CancellationToken_new /\
     is_cancelled (cancel_token r) = false).
Proof.
  unfold RequestClient_new_default, create_client.
  rewrite (configure_default E). cbn [bind].
  destruct (build []) as [c|e]; simpl.
  - split.
    + split; [discriminate | intros [e' He']; discriminate].
    + intros r [= <-]. exists c. auto.
  - split; [split; eauto | intros r Hr; discriminate].
Qed.

(** C1 (amended).  An override entry with a literal that does not parse
    (the code parses the literal followed by [":1111"] as a socket address)
    makes [create_client] fail, so no override is installed.  When the
    steps before the override loop succeed (the same settings with an
    empty overrides map configure), the error is "Invalid IP address: L.
    invalid socket address syntax", where [L] is the last failing literal
    of the first entry, in iteration order, that has one; when an earlier
    step fails, its error is returned unchanged. *)
Theorem override_invalid_literal s d host ips lit :
  dns_settings s = Some d -> In (host, ips) (overrides d) -> In lit ips ->
  fails E lit = true ->
  (exists err, create_client E build s = Err err) /\
  (forall e0, configure E (with_dns s (Some (mkDnsSettings [] (fallback d)))) = Err e0 ->
   create_client E build s = Err e0) /\
  (forall b0, configure E (with_dns s (Some (mkDnsSettings [] (fallback d)))) = Ok b0 ->
   exists pre host' ips' post ips1 lit' ips2,
     overrides d = (pre ++ (host', ips') :: post)%list /\
     Forall (fun e => Forall (fun ip => fails E ip = false) (snd e)) pre /\
     ips' = (ips1 ++ lit' :: ips2)%list /\ fails E lit' = true /\
     Forall (fun ip => fails E ip = false) ips2 /\
     create_client E build s = Err (RhttpUnknownError (invalid_ip_message lit'))).
Proof.
  intros Hd Hin Hlit Hf.
  assert (Hpre : forall b0,
            configure E (with_dns s (Some (mkDnsSettings [] (fallback d)))) = Ok b0 ->
            exists pre host' ips' post ips1 lit' ips2,
              overrides d = (pre ++ (host', ips') :: post)%list /\
              Forall (fun e => Forall (fun ip => fails E ip = false) (snd e)) pre /\
              ips' = (ips1 ++ lit' :: ips2)%list /\ fails E lit' = true /\
              Forall (fun ip => fails E ip = false) ips2 /\
              configure E s = Err (RhttpUnknownError (invalid_ip_message lit'))).
  { intros b0 Hb0. rewrite (configure_split_overrides E _ _ Hd), Hb0. cbn [bind].
    exact (apply_overrides_first_fail b0 _ _ _ _ Hin Hlit Hf). }
  assert (Hearly : forall e0,
            configure E (with_dns s (Some (mkDnsSettings [] (fallback d)))) = Err e0 ->
            create_client E build s = Err e0).
  { intros e0 He0. apply create_client_of_configure_err.
    rewrite (configure_split_overrides E _ _ Hd), He0. reflexivity. }
  split; [|split; [exact Hearly|]].
  - destruct (configure E (with_dns s (Some (mkDnsSettings [] (fallback d))))) as [b0|e0] eqn:Hb0.
    + destruct (Hpre b0 eq_refl) as (_ & _ & _ & _ & _ & l & _ & _ & _ & _ & _ & _ & Herr).
      eexists. apply create_client_of_configure_err. exact Herr.
    + eauto.
  - intros b0 Hb0.
    destruct (Hpre b0 Hb0) as (pre & h & ip & post & i1 & l & i2 & H1 & H2 & H3 & H4 & H5 & Herr).
    exists pre, h, ip, post, i1, l, i2. repeat split; auto.
    apply create_client_of_configure_err. exact Herr.
Qed.


(** C8 (amended).  Every trusted root certificate of a configured builder
    is parsed and added, in order.  A certificate that does not parse makes
    [create_client] fail: when no timeout duration is negative, with
    "Error adding trusted certificate: " and the [Debug] form of the parse
    error of the first certificate that does not parse; when one is
    negative, with chrono's out-of-range message, since the timeout group
    is applied before the TLS group. *)
Theorem trusted_cert_failure s t :
  tls_settings s = Some t ->
  (forall b, configure E s = Ok b ->
   Forall2 (fun cert c => certificate_from_pem E cert = Ok c)
     (trusted_root_certificates t) (root_certificates_of b)) /\
  (forall cert e, In cert (trusted_root_certificates t) ->
   certificate_from_pem E cert = Err e ->
   (exists err, create_client E build s = Err err) /\
   (Forall (fun d => 0 <= secs d) (timeout_durations (timeout_settings s)) ->
    exists pre cert' post e',
      trusted_root_certificates t = (pre ++ cert' :: post)%list /\
      Forall (fun c => exists x, certificate_from_pem E c = Ok x) pre /\
      certificate_from_pem E cert' = Err e' /\
      create_client E build s = Err (RhttpUnknownError (trusted_cert_message E e'))) /\
   (Exists (fun d => secs d < 0) (timeout_durations (timeout_settings s)) ->
    create_client E build s = Err (RhttpUnknownError out_of_range_error_to_string))).
Proof.
  intros Ht. split.
  - intros b H.
    destruct (configure_tls_calls _ _ _ H Ht) as (cs & idl & Hcs & Hid & Hcalls).
    rewrite root_certificates_of_tls, Hcalls. unfold tls_calls.
    rewrite !root_certificates_of_app.
    assert (Hmap : forall l : list (Certificate E),
              root_certificates_of (map (add_root_certificate (E := E)) l) = l).
    { induction l as [|c l IH]; [reflexivity|]. simpl. f_equal. exact IH. }
    assert (Hidl : root_certificates_of idl = []).
    { unfold identity_calls_ok in Hid. destruct (client_certificate t).
      - destruct Hid as (i & _ & ->). reflexivity.
      - rewrite Hid. reflexivity. }
    rewrite Hmap, Hidl.
    destruct (trust_root_certificates t), (verify_certificates t),
      (min_tls_version t), (max_tls_version t); simpl; rewrite ?app_nil_r; exact Hcs.
  - intros cert e Hin He.
    assert (Hneg : Exists (fun d => secs d < 0) (timeout_durations (timeout_settings s)) ->
                   create_client E build s = Err (RhttpUnknownError out_of_range_error_to_string)).
    { intros Hx. apply create_client_of_configure_err.
      unfold configure. cbv zeta. rewrite (apply_timeouts_neg _ _ Hx). reflexivity. }
    assert (Hnn : Forall (fun d => 0 <= secs d) (timeout_durations (timeout_settings s)) ->
                  exists pre cert' post e',
                    trusted_root_certificates t = (pre ++ cert' :: post)%list /\
                    Forall (fun c => exists x, certificate_from_pem E c = Ok x) pre /\
                    certificate_from_pem E cert' = Err e' /\
                    create_client E build s = Err (RhttpUnknownError (trusted_cert_message E e'))).
    { intros Hnn.
      destruct (apply_timeouts_total E (head_calls E s) _ Hnn) as [bt Hbt].
      set (bt' := if negb (trust_root_certificates t)
                  then call bt (tls_built_in_root_certs false) else bt).
      destruct (add_root_certificates_first_fail bt' _ _ _ Hin He)
        as (pre & c' & post & e' & Hsplit & Hpre & He' & Hadd).
      exists pre, c', post, e'. split; [exact Hsplit|]. split; [exact Hpre|].
      split; [exact He'|].
      apply create_client_of_configure_err.
      unfold configure. cbv zeta. fold (head_calls E s). rewrite Hbt. cbn [bind].
      rewrite Ht. cbn [apply_tls]. fold bt'. rewrite Hadd. reflexivity. }
    split; [|split; [exact Hnn | exact Hneg]].
    destruct (Forall_Exists_dec (fun d => 0 <= secs d) (fun d => Z_le_dec 0 (secs d))
                (timeout_durations (timeout_settings s))) as [Hx|Hx].
    + destruct (Hnn Hx) as (_ & _ & _ & e' & _ & _ & _ & Herr). eauto.
    + exists (RhttpUnknownError out_of_range_error_to_string). apply Hneg.
      eapply Exists_impl; [|exact Hx]. intros d Hd. simpl in Hd. lia.
Qed.

(** The claim of C1 fails for every engine in which some literal does not
    parse: with a negative timeout duration, the timeout group fails first
    and its error names no literal. *)
Lemma override_error_claim_refuted lit :
  fails E lit = true -> ~ override_error_claim E build.
Proof.
  intros Hf H.
  set (s := mkClientSettings All
              (Some (mkTimeoutSettings (Some (mkChronoDuration (-1) 0)) None None None))
              true None None None (Some (mkDnsSettings [("example.test", [lit])] None))).
  destruct (H s _ "example.test" [lit] lit eq_refl (or_introl eq_refl) (or_introl eq_refl) Hf)
    as (h & ips & l & _ & _ & _ & Herr).
  assert (Hc : create_client E build s = Err (RhttpUnknownError out_of_range_error_to_string)).
  { apply create_client_of_configure_err. reflexivity. }
  rewrite Hc in Herr. injection Herr as Herr.
  unfold out_of_range_error_to_string, invalid_ip_message in Herr. discriminate Herr.
Qed.

(** The claim of C8 fails for every engine in which some certificate does
    not parse: with a negative timeout duration, the timeout group fails
    first, with chrono's message. *)
Lemma trusted_cert_claim_refuted cert e :
  certificate_from_pem E cert = Err e -> ~ trusted_cert_claim E build.
Proof.
  intros He H.
  set (s := mkClientSettings All
              (Some (mkTimeoutSettings (Some (mkChronoDuration (-1) 0)) None None None))
              true None None (Some (mkTlsSettings true [cert] true None None None)) None).
  destruct (H s _ cert e eq_refl (or_introl eq_refl) He) as [e' He'].
  assert (Hc : create_client E build s = Err (RhttpUnknownError out_of_range_error_to_string)).
  { apply create_client_of_configure_err. reflexivity. }
  rewrite Hc in He'. injection He' as He'.
  unfold out_of_range_error_to_string, trusted_cert_message in He'. discriminate He'.
Qed.


End Coverage.

(** ** Counterexamples and witnesses, evaluated on the concrete engine *)

(** C2: with [Http2] and a DNS override, the override call comes after the
    HTTP/2 prior-knowledge call. *)
Lemma version_forcing_last_fails : ~ version_forcing_last Example.engine.
Proof.
  intros H.
  eassert (Hb : configure Example.engine Inputs.c2_settings = Ok _) by reflexivity.
  specialize (H _ _ Hb 0%nat 1%nat _ _ eq_refl eq_refl eq_refl).
  assert (Hlt : (1 < 0)%nat) by (apply H; discriminate). lia.
Qed.

Lemma version_forcing_between_tls_and_dns_witness :
  exists b, configure Example.engine Inputs.c2_settings = Ok b /\
  exists pre post,
    b = (pre ++ apply_http_version Example.engine [] Http2 ++ post)%list /\
    Forall (fun c => In (group_of c) [GProxy; GRedirect; GTimeout; GTls]) pre /\
    Forall (in_group Example.engine GDns) post.
Proof.
  eexists. split; [reflexivity|].
  apply (version_forcing_between_tls_and_dns Example.engine Inputs.c2_settings).
  reflexivity.
Defined.

(** C3: a keep-alive timeout of one nanosecond is strictly positive, yet
    none of the keep-alive calls is made. *)
Lemma keep_alive_positive_claim_fails : ~ keep_alive_positive_claim Example.engine.
Proof.
  intros H.
  eassert (Hb : configure Example.engine Inputs.c3_settings = Ok _) by reflexivity.
  destruct (H Inputs.c3_settings _ _ _ eq_refl eq_refl Hb) as [_ Hpos].
  destruct Hpos as (sd & _ & Hin & _); [simpl; lia|].
  simpl in Hin. exact Hin.
Qed.

Lemma keep_alive_gate_millis_witness :
  exists b, configure Example.engine Inputs.c3_settings_2s = Ok b /\
  exists sd, to_std (mkChronoDuration 2 0) = Ok sd /\
    (as_millis sd <= 0 -> Forall (fun c => is_keep_alive_effect c = false) b) /\
    (0 < as_millis sd ->
     In (tcp_keepalive sd) b /\ In (http2_keep_alive_while_idle true) b /\
     In (http2_keep_alive_timeout sd) b).
Proof.
  eexists. split; [reflexivity|].
  eapply (keep_alive_gate_millis Example.engine Inputs.c3_settings_2s); reflexivity.
Defined.

(** C4: [LimitedRedirects(-1)] reaches reqwest as a limit of [2^64 - 1]. *)
Lemma redirect_claim_fails : ~ redirect_claim Example.engine.
Proof.
  intros H.
  assert (Hb : configure Example.engine Inputs.c4_settings
               = Ok [redirect (Policy_limited (i32_as_usize (-1)))]) by reflexivity.
  destruct (H _ _ Hb) as [_ Hl].
  specialize (Hl (-1) eq_refl).
  destruct Hl as [Hl | []]. injection Hl as Hl.
  rewrite i32_as_usize_value in Hl by lia. simpl in Hl. lia.
Qed.

Lemma redirect_policy_as_usize_witness :
  let b := [redirect (E := Example.engine) (Policy_limited (i32_as_usize (-1)))] in
  configure Example.engine Inputs.c4_settings = Ok b /\
  (redirect_settings Inputs.c4_settings = Some NoRedirect -> In (redirect Policy_none) b) /\
  (forall n, redirect_settings Inputs.c4_settings = Some (LimitedRedirects n) ->
   -2^31 <= n < 2^31 ->
   In (redirect (Policy_limited (if n <? 0 then n + 2^64 else n))) b).
Proof.
  intros b. split; [reflexivity|].
  apply (redirect_policy_as_usize Example.engine Inputs.c4_settings).
  reflexivity.
Defined.

(** C1: the timeout group is applied before the overrides, so a negative
    timeout duration gives chrono's error, which names no literal. *)
Lemma override_error_claim_fails : ~ override_error_claim Example.engine Example.build.
Proof.
  apply (override_error_claim_refuted Example.engine Example.build "not-an-ip").
  reflexivity.
Qed.

(** The spec's example: the override names [not-an-ip]. *)
Lemma override_example_message :
  create_client Example.engine Example.build Inputs.c1_settings_valid_prefix
  = Err (RhttpUnknownError (invalid_ip_message "not-an-ip")).
Proof. reflexivity. Qed.

Lemma override_invalid_literal_witness :
  let s := Inputs.c1_settings_valid_prefix in
  let d := mkDnsSettings [("example.test", ["1.2.3.4"; "not-an-ip"])] None in
  (exists err, create_client Example.engine Example.build s = Err err) /\
  (forall e0, configure Example.engine (with_dns s (Some (mkDnsSettings [] (fallback d)))) = Err e0 ->
   create_client Example.engine Example.build s = Err e0) /\
  (forall b0, configure Example.engine (with_dns s (Some (mkDnsSettings [] (fallback d)))) = Ok b0 ->
   exists pre host' ips' post ips1 lit' ips2,
     overrides d = (pre ++ (host', ips') :: post)%list /\
     Forall (fun e => Forall (fun ip => fails Example.engine ip = false) (snd e)) pre /\
     ips' = (ips1 ++ lit' :: ips2)%list /\ fails Example.engine lit' = true /\
     Forall (fun ip => fails Example.engine ip = false) ips2 /\
     create_client Example.engine Example.build s = Err (RhttpUnknownError (invalid_ip_message lit'))).
Proof.
  intros s d.
  apply (override_invalid_literal Example.engine Example.build s d
           "example.test" ["1.2.3.4"; "not-an-ip"] "not-an-ip");
    [reflexivity | simpl; auto | simpl; auto | reflexivity].
Defined.

Lemma static_resolver_fallback_witness :
  resolve Example.engine (mkStaticResolver (E := Example.engine) ([9; 9; 9; 9], 1111)) "any.host"
    = Ready (E := Example.engine) (Ok [([9; 9; 9; 9], 1111)]) /\
  exists b, configure Example.engine Inputs.c5_settings = Ok b /\
  exists a, socket_addr_from_str Example.engine ("9.9.9.9" ++ ":" ++ dummy_port) = Some a /\
    In (dns_resolver (mkStaticResolver a)) b.
Proof.
  split.
  - apply (proj1 (static_resolver_fallback Example.engine Example.build)).
  - eexists. split; [reflexivity|].
    apply (proj1 (proj2 (static_resolver_fallback Example.engine Example.build))
             Inputs.c5_settings (mkDnsSettings [] (Some "9.9.9.9")) "9.9.9.9");
      reflexivity.
Defined.



Lemma client_identity_blob_witness :
  let cc := mkClientCertificate Example.pem_prefix Example.pem_prefix in
  identity_blob cc = (certificate cc ++ [x0a] ++ private_key cc)%list /\
  (forall b, configure Example.engine Inputs.c7_settings = Ok b ->
   exists id, identity_from_pem Example.engine (identity_blob cc) = Ok id /\ In (identity id) b) /\
  (forall e, identity_from_pem Example.engine (identity_blob cc) = Err e ->
   exists err, create_client Example.engine Example.build Inputs.c7_settings = Err err).
Proof.
  intros cc.
  apply (client_identity_blob Example.engine Example.build Inputs.c7_settings
           (mkTlsSettings true [] true (Some cc) None None) cc); reflexivity.
Defined.

(** C8: a negative timeout is reported first, with chrono's message. *)
Lemma trusted_cert_claim_fails : ~ trusted_cert_claim Example.engine Example.build.
Proof.
  apply (trusted_cert_claim_refuted Example.engine Example.build [x00] Example.pem_error).
  reflexivity.
Qed.

Lemma trusted_cert_failure_witness :
  let s := Inputs.c8_settings_valid_prefix in
  let t := mkTlsSettings true [[x00]] true None None None in
  (forall b, configure Example.engine s = Ok b ->
   Forall2 (fun cert c => certificate_from_pem Example.engine cert = Ok c)
     (trusted_root_certificates t) (root_certificates_of b)) /\
  (forall cert e, In cert (trusted_root_certificates t) ->
   certificate_from_pem Example.engine cert = Err e ->
   (exists err, create_client Example.engine Example.build s = Err err) /\
   (Forall (fun d => 0 <= secs d) (timeout_durations (timeout_settings s)) ->
    exists pre cert' post e',
      trusted_root_certificates t = (pre ++ cert' :: post)%list /\
      Forall (fun c => exists x, certificate_from_pem Example.engine c = Ok x) pre /\
      certificate_from_pem Example.engine cert' = Err e' /\
      create_client Example.engine Example.build s
      = Err (RhttpUnknownError (trusted_cert_message Example.engine e'))) /\
   (Exists (fun d => secs d < 0) (timeout_durations (timeout_settings s)) ->
    create_client Example.engine Example.build s
    = Err (RhttpUnknownError out_of_range_error_to_string))).
Proof.
  intros s t.
  apply (trusted_cert_failure Example.engine Example.build s t). reflexivity.
Defined.

Lemma default_settings_and_fields_witness :
  exists r, create_client Example.engine Example.build ClientSettings_default = Ok r /\
  rc_http_version_pref r = All /\ rc_throw_on_status_code r = true.
Proof.
  eexists. split; [reflexivity|].
  apply (proj2 (default_settings_and_fields Example.engine Example.build) ClientSettings_default).
  reflexivity.
Defined.

(** ** Witnesses of the further properties *)

Lemma configure_ok_iff_witness : settings_valid Example.engine Inputs.x_dns_settings.
Proof.
  apply (proj1 (configure_ok_iff Example.engine Inputs.x_dns_settings)).
  eexists. reflexivity.
Defined.

Lemma timeout_group_calls_witness :
  exists b, configure Example.engine Inputs.x_timeout_settings = Ok b /\
  calls_of GTimeout b = expected_timeout_calls Inputs.x_timeouts.
Proof.
  eexists. split; [reflexivity|].
  apply (timeout_group_calls Example.engine Inputs.x_timeout_settings); reflexivity.
Defined.

Lemma absent_groups_no_calls_witness :
  (exists b, configure Example.engine Inputs.x_tls_settings = Ok b /\
   calls_of GTimeout b = [] /\ calls_of GDns b = []) /\
  (exists b, configure Example.engine Inputs.x_dns_settings = Ok b /\
   calls_of GProxy b = [] /\ calls_of GRedirect b = [] /\
   calls_of GTimeout b = [] /\ calls_of GTls b = []).
Proof.
  split.
  - eexists. split; [reflexivity|].
    destruct (absent_groups_no_calls Example.engine Inputs.x_tls_settings _ eq_refl)
      as (_ & _ & Ht & _ & _ & Hd).
    split; [apply Ht | apply Hd]; reflexivity.
  - eexists. split; [reflexivity|].
    destruct (absent_groups_no_calls Example.engine Inputs.x_dns_settings _ eq_refl)
      as (Hp & Hr & Ht & Htls & _ & _).
    split; [apply Hp|split; [apply Hr|split; [apply Ht|apply Htls]]]; reflexivity.
Defined.

Lemma proxy_redirect_version_calls_witness :
  exists b, configure Example.engine Inputs.x_tls_settings = Ok b /\
  calls_of GProxy b = [no_proxy] /\
  calls_of GRedirect b = [redirect Policy_none] /\
  calls_of GVersion b = [http1_only].
Proof.
  eexists. split; [reflexivity|].
  apply (proxy_redirect_version_calls Example.engine Inputs.x_tls_settings). reflexivity.
Defined.

Lemma tls_group_calls_witness :
  exists b, configure Example.engine Inputs.x_tls_settings = Ok b /\
  exists cs idl,
    Forall2 (fun cert c => certificate_from_pem Example.engine cert = Ok c)
      (trusted_root_certificates Inputs.x_tls) cs /\
    identity_calls_ok Example.engine Inputs.x_tls idl /\
    calls_of GTls b = tls_calls Inputs.x_tls cs idl.
Proof.
  eexists. split; [reflexivity|].
  apply (tls_group_calls Example.engine Inputs.x_tls_settings); reflexivity.
Defined.

Lemma tls_switches_witness :
  exists b, configure Example.engine Inputs.x_tls_settings = Ok b /\
  (forall x, In (tls_built_in_root_certs x) b <->
             x = false /\ trust_root_certificates Inputs.x_tls = false) /\
  (forall x, In (danger_accept_invalid_certs x) b <->
             x = true /\ verify_certificates Inputs.x_tls = false) /\
  (forall v, In (min_tls_version_call v) b <->
             exists v0, min_tls_version Inputs.x_tls = Some v0 /\ v = map_tls_version v0) /\
  (forall v, In (max_tls_version_call v) b <->
             exists v0, max_tls_version Inputs.x_tls = Some v0 /\ v = map_tls_version v0).
Proof.
  eexists. split; [reflexivity|].
  apply (tls_switches Example.engine Inputs.x_tls_settings); reflexivity.
Defined.

Lemma root_certificates_added_witness :
  exists b, configure Example.engine Inputs.x_tls_settings = Ok b /\
  Forall2 (fun cert c => certificate_from_pem Example.engine cert = Ok c)
    (trusted_root_certificates Inputs.x_tls) (root_certificates_of b).
Proof.
  eexists. split; [reflexivity|].
  apply (root_certificates_added Example.engine Inputs.x_tls_settings); reflexivity.
Defined.

Lemma dns_group_calls_witness :
  exists b, configure Example.engine Inputs.x_dns_settings = Ok b /\
  exists fbl ovl,
    fallback_calls_ok Example.engine Inputs.x_dns fbl /\
    Forall2 (fun e c => exists addrs, c = resolve_to_addrs (fst e) addrs /\
                                      Forall2 (parses Example.engine) (snd e) addrs)
      (overrides Inputs.x_dns) ovl /\
    calls_of GDns b = (fbl ++ ovl)%list.
Proof.
  eexists. split; [reflexivity|].
  apply (dns_group_calls Example.engine Inputs.x_dns_settings); reflexivity.
Defined.

Lemma negative_timeout_error_witness :
  create_client Example.engine Example.build Inputs.c8_settings
  = Err (RhttpUnknownError out_of_range_error_to_string).
Proof.
  apply (negative_timeout_error Example.engine Example.build Inputs.c8_settings).
  simpl. constructor. simpl. lia.
Defined.

Lemma identity_error_message_witness :
  create_client Example.engine Example.build Inputs.x_bad_identity_settings
  = Err (RhttpUnknownError (reqwest_error_debug Example.engine Example.pem_error)).
Proof.
  apply (identity_error_message Example.engine Example.build Inputs.x_bad_identity_settings
           Inputs.x_bad_identity_tls (mkClientCertificate [x00] [x00]) Example.pem_error).
  - reflexivity.
  - reflexivity.
  - simpl. repeat constructor; simpl; lia.
  - constructor; [eexists; reflexivity | constructor].
  - reflexivity.
Defined.

Lemma fallback_error_message_witness :
  create_client Example.engine Example.build Inputs.c1_settings
  = Err (RhttpUnknownError addr_parse_error_debug).
Proof.
  apply (fallback_error_message Example.engine Example.build Inputs.c1_settings
           (mkDnsSettings [("example.test", ["1.2.3.4"; "not-an-ip"])] (Some "not-an-ip"))
           "not-an-ip" []); reflexivity.
Defined.

Lemma override_error_names_last_literal_witness :
  create_client Example.engine Example.build Inputs.x_bad_override_settings
  = Err (RhttpUnknownError (invalid_ip_message "bad2")).
Proof.
  apply (override_error_names_last_literal Example.engine Example.build
           Inputs.x_bad_override_settings Inputs.x_bad_overrides []
           [("ok.test", ["1.2.3.4"])] "bad.test"
           ["1.2.3.4"; "bad1"; "5.6.7.8"; "bad2"; "9.9.9.9"]
           [("later.test", ["bad3"])] ["1.2.3.4"; "bad1"; "5.6.7.8"] "bad2" ["9.9.9.9"]).
  - reflexivity.
  - reflexivity.
  - reflexivity.
  - repeat constructor.
  - reflexivity.
  - reflexivity.
  - repeat constructor.
Defined.

Lemma new_default_outcome_witness :
  RequestClient_new_default Example.engine Example.build
    = Some (mkRequestClient Example.engine tt All true CancellationToken_new) /\
  (RequestClient_new_default Example.engine Example.build = None <->
   exists e, Example.build [] = Err e).
Proof.
  split; [reflexivity|].
  apply (proj1 (new_default_outcome Example.engine Example.build)).
Defined.
